(** * stm_enc_reader: the streaming packet analyzer and the capture files

    A shallow embedding of [stm_enc_reader.py].  The reader object, the
    file system it writes to and the TCP socket it reads from are explicit
    state; Python exceptions are explicit outcomes.  Bytes are [Byte.byte],
    Python integers are [Z], paths are strings and the file system is a
    finite map from paths to file contents. *)

From Stdlib Require Import ZArith Lia List.
From Stdlib Require Import Strings.Byte.
From stdpp Require Import base option list gmap strings.

Local Open Scope Z_scope.

(** ** Bytes and Python's operations on them *)

Abbreviation bytes := (list byte).

Definition byte_val (b : byte) : Z := Z.of_N (Byte.to_N b).

Definition byte_of_Z (z : Z) : byte :=
  match Byte.of_N (Z.to_N (z mod 256)) with
  | Some b => b
  | None => x00
  end.

(** [b[lo:hi]] for [0 <= lo <= hi]; Python clips a slice at the end of the
    sequence, as [take] and [drop] do. *)
Definition slice (lo hi : nat) (b : bytes) : bytes :=
  take (hi - lo) (drop lo b).

(** [int.from_bytes(b, 'little')]. *)
Fixpoint from_bytes_le (b : bytes) : Z :=
  match b with
  | [] => 0
  | x :: b' => byte_val x + 256 * from_bytes_le b'
  end.

(** The [n] low bytes of [z], least significant first. *)
Fixpoint le_digits (n : nat) (z : Z) : bytes :=
  match n with
  | O => []
  | S n' => byte_of_Z z :: le_digits n' (z / 256)
  end.

(** ** Outcomes: a value, a Python exception, or a loop cut short *)

Inductive exn :=
| NotConnected      (* RuntimeError('Not connected.') *)
| FilenameCollision (* RuntimeError('Filename collision: ...') *)
| HeaderTooLong     (* Exception('HEADER TOO LONG') *)
| OverflowError     (* int.to_bytes: value out of range *)
| ValueError        (* socket.recv: negative buffersize *)
| TypeError         (* open(None, ...) *)
| IndexError.       (* bytes index out of range *)

Inductive outcome (A : Type) :=
| Ok (a : A)
| Raise (e : exn)
| OutOfFuel.
Arguments Ok {A} a.
Arguments Raise {A} e.
Arguments OutOfFuel {A}.

Definition obind {A B} (o : outcome A) (k : A -> outcome B) : outcome B :=
  match o with
  | Ok a => k a
  | Raise e => Raise e
  | OutOfFuel => OutOfFuel
  end.

(** [z.to_bytes(4, 'little', signed=False)]. *)
Definition to_bytes4 (z : Z) : outcome bytes :=
  if (0 <=? z) && (z <? 2 ^ 32) then Ok (le_digits 4 z) else Raise OverflowError.

(** [b[i]] as an integer. *)
Definition index (b : bytes) (i : nat) : outcome Z :=
  match b !! i with
  | Some x => Ok (byte_val x)
  | None => Raise IndexError
  end.

(** ** Module constants *)

Definition RECV_BUFLEN : Z := 128 * 15.
Definition FILE_LEN : Z := 1000000.
Definition VERSION : Z := 2021042901.

Definition nl : byte := x0a.
Definition tab : byte := x09.
Definition txt (s : string) : bytes := String.list_byte_of_string s.

Definition HEADER_TXT : bytes :=
  txt "Stimulator encoder data" ++ [nl] ++
  txt "Packet format: [HEADER 1][TS_LSB 4][TS_MSB 4][DATA 5][FOOTER 1]" ++ [nl] ++
  [tab] ++ txt "ENC : HEADER=0x99 FOOTER=0x66" ++ [nl] ++
  [tab; tab] ++ txt "DATA=[SEC][MIN][HOUR][DAY 2]" ++ [nl] ++
  [tab] ++ txt "IRIG: HEADER=0x55 FOOTER=0xAA" ++ [nl] ++
  [tab; tab] ++ txt "DATA=[STATE 4][0x00]" ++ [nl].

(** ** The reader object *)

Record reader := Reader {
  connected : bool;              (* self._connected *)
  current_path : option string;  (* self._current_path *)
  file_len : Z;                  (* self._file_len *)
  res : Z;                       (* self._res *)
  carry_over : bytes;            (* self._carry_over *)
  ts_latest : Z;                 (* self.ts_latest *)
  state_latest : Z               (* self.state_latest *)
}.

Definition set_connected (v : bool) (r : reader) : reader :=
  Reader v (current_path r) (file_len r) (res r) (carry_over r)
         (ts_latest r) (state_latest r).
Definition set_current_path (v : option string) (r : reader) : reader :=
  Reader (connected r) v (file_len r) (res r) (carry_over r)
         (ts_latest r) (state_latest r).
Definition set_res (v : Z) (r : reader) : reader :=
  Reader (connected r) (current_path r) (file_len r) v (carry_over r)
         (ts_latest r) (state_latest r).
Definition set_carry_over (v : bytes) (r : reader) : reader :=
  Reader (connected r) (current_path r) (file_len r) (res r) v
         (ts_latest r) (state_latest r).
Definition set_latest (ts st : Z) (r : reader) : reader :=
  Reader (connected r) (current_path r) (file_len r) (res r) (carry_over r)
         ts st.

(** The fields [__init__] sets (lock file and socket creation left out). *)
Definition init (file_len : Z) : reader :=
  Reader false None file_len (file_len * 15) [] 0 0.

(** ** The analyzer at the end of [fill] (lines 247-264) *)

(** The body of [for i in range(pnum)] on one [packet]. *)
Definition decode (packet : bytes) (r : reader) : outcome reader :=
  obind (index packet 0) (fun header =>
  let ts_lsb := from_bytes_le (slice 1 5 packet) in
  let ts_msb := from_bytes_le (slice 5 9 packet) in
  let timestamp := ts_lsb + Z.shiftl ts_msb 32 in
  let status := from_bytes_le (slice 9 13 packet) in
  obind (index packet 14) (fun footer =>
  if (header =? 153) && (footer =? 102)
  then Ok (set_latest timestamp status r)
  else Ok r)).

(** The packets the loop visits: [tmpd[15*i:15*(i+1)]] for [i] in
    [range(pnum)], with [pnum = int(len(tmpd)/15)].  The float quotient
    truncates to the integer quotient for every length below [2^53]. *)
Definition packets (tmpd : bytes) : list bytes :=
  let pnum := (length tmpd / 15)%nat in
  map (fun i => slice (15 * i) (15 * (i + 1)) tmpd) (seq 0 pnum).

(** Lines 248-255: the packets cut from [carry_over + data] and the bytes
    kept in [self._carry_over], which is [tmpd[tmpr:]]. *)
Definition absorb (carry data : bytes) : list bytes * bytes :=
  let tmpd := carry ++ data in
  let tmpr := (length tmpd mod 15)%nat in
  (packets tmpd, drop tmpr tmpd).

Fixpoint decode_all (ps : list bytes) (r : reader) : outcome reader :=
  match ps with
  | [] => Ok r
  | packet :: ps' => obind (decode packet r) (decode_all ps')
  end.

Definition analyzer (data : bytes) (r : reader) : outcome reader :=
  let '(ps, carry) := absorb (carry_over r) data in
  decode_all ps (set_carry_over carry r).

(** Successive chunks through the analyzer, as successive [fill] calls
    hand them over. *)
Fixpoint analyzer_chunks (chunks : list bytes) (r : reader) : outcome reader :=
  match chunks with
  | [] => Ok r
  | data :: chunks' => obind (analyzer data r) (analyzer_chunks chunks')
  end.

(** The packets and the carry-over of successive [absorb] steps. *)
Fixpoint absorb_chunks (carry : bytes) (chunks : list bytes) : list bytes * bytes :=
  match chunks with
  | [] => ([], carry)
  | data :: chunks' =>
      let '(ps, carry') := absorb carry data in
      let '(qs, carry'') := absorb_chunks carry' chunks' in
      (ps ++ qs, carry'')
  end.

(** ** The world around the reader *)

(** What the wall clock yields when a file is opened: the path
    [path_creator] builds from the UTC date, the path [get_write] builds in
    the working directory when it is given none, and the two integers
    [_write_header] derives from [datetime.now().timestamp()]:
    [int(utime)] and [int((utime - utime_int)*1e6)]. *)
Record clock := Clock {
  dated_path : string;
  local_path : string;
  utime_int : Z;
  utime_us : Z
}.

(** The times a 4-byte unsigned field can hold. *)
Definition clock_ok (now : clock) : Prop :=
  (0 <= utime_int now < 2 ^ 32) /\ (0 <= utime_us now < 2 ^ 32).

(** The file system maps a path to the bytes of the file.  The socket is
    the list of segments the peer's stream arrives in: one [recv] hands
    over at most one segment, and at most the number of bytes asked for.
    An exhausted list is a closed connection, on which [recv] yields
    [b'']. *)
Record world := World {
  self : reader;
  fs : gmap string bytes;
  client : list bytes
}.

Definition M (A : Type) : Type := world -> outcome A * world.

Definition ret {A} (a : A) : M A := fun w => (Ok a, w).
Definition raise {A} (e : exn) : M A := fun w => (Raise e, w).
Definition bind {A B} (m : M A) (k : A -> M B) : M B := fun w =>
  match m w with
  | (Ok a, w') => k a w'
  | (Raise e, w') => (Raise e, w')
  | (OutOfFuel, w') => (OutOfFuel, w')
  end.
Definition lift {A} (o : outcome A) : M A := fun w => (o, w).

#[global] Instance M_ret : MRet M := @ret.
#[global] Instance M_bind : MBind M := fun A B k m => bind m k.

Definition get_self : M reader := fun w => (Ok (self w), w).
Definition modify (f : reader -> reader) : M unit := fun w =>
  (Ok tt, World (f (self w)) (fs w) (client w)).

(** [open(path, 'wb')]: the file is created, or emptied when it exists. *)
Definition open_wb (path : string) : M unit := fun w =>
  (Ok tt, World (self w) (<[path := []]> (fs w)) (client w)).

(** [file_desc.write(data)] on a file opened by ['wb'] or ['ab']: the bytes
    go to the end of the file, which ['ab'] creates when it is missing. *)
Definition write (path : string) (data : bytes) : M unit := fun w =>
  (Ok tt, World (self w) (<[path := default [] (fs w !! path) ++ data]> (fs w))
                (client w)).

(** What one [recv] of at most [n] bytes takes from the segments. *)
Definition take_seg (n : nat) (segs : list bytes) : bytes * list bytes :=
  match segs with
  | [] => ([], [])
  | seg :: segs' =>
      if (length seg <=? n)%nat then (seg, segs')
      else (take n seg, drop n seg :: segs')
  end.

(** [self._client.recv(n)]. *)
Definition recv (n : Z) : M bytes := fun w =>
  if n <? 0 then (Raise ValueError, w) else
  let '(data, segs) := take_seg (Z.to_nat n) (client w) in
  (Ok data, World (self w) (fs w) segs).

(** [connect]: the socket is taken as established. *)
Definition connect : M unit := modify (set_connected true).

(** [path_creator]: the dated path, refused when the file exists. *)
Definition path_creator (now : clock) : M string := fun w =>
  match fs w !! dated_path now with
  | Some _ => (Raise FilenameCollision, w)
  | None => (Ok (dated_path now), w)
  end.

(** ** The file header *)

(** The header [_write_header] composes, with the static text, the version
    and the two time fields as arguments. *)
Definition build_header (text : bytes) (version sec us : Z) : outcome bytes :=
  let header := txt "256" ++ [nl] in
  obind (to_bytes4 version) (fun v =>
  let header := header ++ v in
  obind (to_bytes4 sec) (fun s =>
  let header := header ++ s in
  obind (to_bytes4 us) (fun u =>
  let header := header ++ u in
  let header := header ++ text in
  let res := 256 - Z.of_nat (length header) in
  if res <? 0 then Raise HeaderTooLong
  else Ok (header ++ replicate (Z.to_nat res) x20)))).

Definition _write_header_with (text : bytes) (version : Z) (path : string)
    (now : clock) : M unit :=
  open_wb path ;;
  header ← lift (build_header text version (utime_int now) (utime_us now));
  write path header.

Definition _write_header : string -> clock -> M unit :=
  _write_header_with HEADER_TXT VERSION.

(** ** Bulk capture *)

Definition recv_num (rest : Z) : Z :=
  if rest >? RECV_BUFLEN then RECV_BUFLEN else rest.

(** [while rest > 0] of [get_write]; [fuel] bounds the number of
    iterations. *)
Fixpoint get_write_loop (fuel : nat) (path : string) (rest : Z) : M unit :=
  if rest >? 0 then
    match fuel with
    | O => lift OutOfFuel
    | S fuel' =>
        data ← recv (recv_num rest);
        write path data ;;
        get_write_loop fuel' path (rest - Z.of_nat (length data))
    end
  else ret tt.

Definition get_write (fuel : nat) (data_num : Z) (path : option string)
    (now : clock) : M unit :=
  r ← get_self;
  if negb (connected r) then raise NotConnected else
  let rest := 15 * data_num in
  let path := match path with Some p => p | None => local_path now end in
  _write_header path now ;;
  open_wb path ;;
  get_write_loop fuel path rest.

(** ** Rotating capture *)

Definition fill_initialization (now : clock) : M unit :=
  r ← get_self;
  match current_path r with
  | None =>
      p ← path_creator now;
      modify (set_current_path (Some p)) ;;
      _write_header p now ;;
      modify (fun r => set_res (file_len r * 15) r)
  | Some _ => ret tt
  end.

Definition fill_body : M bytes :=
  r ← get_self;
  data ← recv (recv_num (res r));
  modify (fun r => set_res (res r - Z.of_nat (length data)) r) ;;
  r ← get_self;
  match current_path r with
  | Some p => write p data
  | None => raise TypeError
  end ;;
  r ← get_self;
  (if res r <=? 0 then modify (set_current_path None) else ret tt) ;;
  ret data.

Definition fill_analyzer (data : bytes) : M unit :=
  r ← get_self;
  r' ← lift (analyzer data r);
  modify (fun _ => r').

Definition fill (now : clock) : M unit :=
  fill_initialization now ;;
  data ← fill_body;
  fill_analyzer data.

(** [fill] called once per clock reading. *)
Fixpoint fills (clk : list clock) : M unit :=
  match clk with
  | [] => ret tt
  | now :: clk' => fill now ;; fills clk'
  end.

(** The loop of [main], followed until the peer's stream has been received
    in full; each call of [fill] takes the next clock reading. *)
Fixpoint main_loop (clk : list clock) : M unit := fun w =>
  match client w with
  | [] => (Ok tt, w)
  | _ :: _ =>
      match clk with
      | [] => (OutOfFuel, w)
      | now :: clk' => (fill now ;; main_loop clk') w
      end
  end.

(** The world in which a reader with [file_len] records per file starts,
    connected to a peer whose stream arrives as [segs]. *)
Definition start (file_len : Z) (files : gmap string bytes) (segs : list bytes) : world :=
  World (set_connected true (init file_len)) files segs.

(** ** Vocabulary of the statements *)

(** The fields of the reader the analyzer leaves alone. *)
Definition same_session (r r' : reader) : Prop :=
  connected r' = connected r /\ current_path r' = current_path r /\
  file_len r' = file_len r /\ res r' = res r.

(** The header of every file of this program, at a time the fields hold. *)
Definition header_of (now : clock) : bytes :=
  txt "256" ++ [nl] ++ le_digits 4 VERSION ++ le_digits 4 (utime_int now)
  ++ le_digits 4 (utime_us now) ++ HEADER_TXT ++ replicate 36 x20.

(** The capacity invariant of a rotating capture that started with the
    files [files0] and [F] records per file: the counter is not negative, no
    file of the capture is longer than its header and [F] records, and the
    current file has room for what the counter still allows. *)
Definition capacity_inv (F : Z) (files0 : gmap string bytes) (w : world) : Prop :=
  file_len (self w) = F /\
  0 <= res (self w) /\
  (forall path content, files0 !! path = None -> fs w !! path = Some content ->
     Z.of_nat (length content) <= 256 + F * 15) /\
  (forall p, current_path (self w) = Some p ->
     exists content, fs w !! p = Some content /\
       Z.of_nat (length content) + res (self w) <= 256 + F * 15).

(** The state of a rotating capture that started with the files [files0]
    and [F] records per file, once it has received the bytes [T] and opened
    the files [ps], in this order: file [j] holds a header and the bytes of
    [T] from [j * F * 15] up to [(j + 1) * F * 15], every other file is as
    it was, and the current file, when there is one, is the last and not
    yet full. *)
Definition rotating (F : Z) (files0 : gmap string bytes) (ps : list string)
    (T : bytes) (w : world) : Prop :=
  let N := Z.to_nat (F * 15) in
  file_len (self w) = F /\
  NoDup ps /\
  (forall p, p ∈ ps -> files0 !! p = None) /\
  (forall p, p ∉ ps -> fs w !! p = files0 !! p) /\
  (forall j p, ps !! j = Some p ->
     exists hdr, length hdr = 256%nat /\
       fs w !! p = Some (hdr ++ slice (j * N) ((j + 1) * N) T)) /\
  match current_path (self w) with
  | None => length T = (length ps * N)%nat
  | Some p =>
      exists j, ps !! j = Some p /\ length ps = S j /\
        (j * N <= length T < (j + 1) * N)%nat /\
        res (self w) = Z.of_nat ((j + 1) * N - length T)
  end.

(** The same between two calls of [fill]: the current file has received at
    least one byte. *)
Definition rotated (F : Z) (files0 : gmap string bytes) (ps : list string)
    (T : bytes) (w : world) : Prop :=
  rotating F files0 ps T w /\
  (is_Some (current_path (self w)) ->
   ((length ps - 1) * Z.to_nat (F * 15) < length T)%nat).

(** ** The loop of bulk captures *)

(** One pass of [while True] in [loop]: with a directory ([dated]) the file
    is named by [path_creator], without one by [get_write] itself. *)
Definition loop_pass (fuel : nat) (length : Z) (dated : bool) (now : clock) : M unit :=
  if dated then
    p ← path_creator now;
    get_write fuel length (Some p) now
  else get_write fuel length None now.

(** The passes of [while True] made before the interrupt, one clock reading
    each. *)
Fixpoint loop_passes (fuel : nat) (length : Z) (dated : bool) (clk : list clock) : M unit :=
  match clk with
  | [] => ret tt
  | now :: clk' =>
      loop_pass fuel length dated now ;;
      loop_passes fuel length dated clk'
  end.

(** [loop], the check of the directory left out. *)
Definition loop (fuel : nat) (length : Z) (dated : bool) (clk : list clock) : M unit :=
  connect ;;
  loop_passes fuel length dated clk.

(** ** The lock file *)

(** What [__init__] and [__del__] raise around the lock file. *)
Inductive lock_exn :=
| Locked         (* RuntimeError('Locked: ...') *)
| NoWriteAccess  (* RuntimeError('No write access to ...') *)
| FileNotFound.  (* Path.unlink on a missing file *)

(** The reader with the two fields that guard the lock file. *)
Record guarded := Guarded {
  _lockpath : string;  (* self._lockpath *)
  _locked : bool;      (* self._locked *)
  _reader : reader
}.

(** [__init__], on the file system alone.  [writable] is what [is_writable]
    of the module [common] answers for the directory of the lock file, and
    [pid] is the process id in decimal.  When it raises, the object exists
    with [_locked] false. *)
Definition __init__ (lockpath : string) (writable : bool) (pid : bytes)
    (file_len : Z) (files : gmap string bytes)
    : option lock_exn * guarded * gmap string bytes :=
  let unlocked := Guarded lockpath false (init file_len) in
  match files !! lockpath with
  | Some _ => (Some Locked, unlocked, files)
  | None =>
      if negb writable then (Some NoWriteAccess, unlocked, files)
      else (None, Guarded lockpath true (init file_len),
            <[lockpath := pid ++ [nl]]> files)
  end.

(** [__del__], on the file system alone: [_close] touches the socket only. *)
Definition __del__ (g : guarded) (files : gmap string bytes)
    : option lock_exn * gmap string bytes :=
  if _locked g then
    match files !! _lockpath g with
    | Some _ => (None, delete (_lockpath g) files)
    | None => (Some FileNotFound, files)
    end
  else (None, files).

(** Two readers with the same latest timestamp and state. *)
Definition same_latest (r r' : reader) : Prop :=
  ts_latest r' = ts_latest r /\ state_latest r' = state_latest r.

(** The state of a rotating capture on a stream of whole packets, for the
    analyzer: every byte of [stream] is in the carry-over or still to come,
    all in whole packets, and the latest timestamp and state are those that
    decoding the carry-over packet by packet, from a reader as [__init__]
    leaves it, ends with. *)
Definition tracking (F : Z) (stream : bytes) (w : world) : Prop :=
  carry_over (self w) ++ concat (client w) = stream /\
  Forall (fun seg => length seg mod 15 = 0)%nat (client w) /\
  (length (carry_over (self w)) mod 15 = 0)%nat /\
  file_len (self w) = F /\
  res (self w) mod 15 = 0 /\
  exists r, decode_all (packets (carry_over (self w))) (init F) = Ok r /\
            same_latest r (self w).

(** ** Sample data *)

(** [b'\x99' + b'\x00'*12 + b'\x00\x66']: an encoder packet, timestamp 0. *)
Definition enc0 : bytes := [x99] ++ replicate 12 x00 ++ [x00; x66].

(** An encoder packet whose timestamp is 1. *)
Definition enc1 : bytes := [x99; x01] ++ replicate 11 x00 ++ [x00; x66].

(** Clock readings one second apart, each with a dated path of its own. *)
Definition sample_clock (n : nat) : clock :=
  Clock (String (Ascii.ascii_of_nat (48 + n)) ".dat") "el.dat"
        (1700000000 + Z.of_nat n) 250000.

(** Two readings one second apart, as [path_creator] names them. *)
Definition clock_a : clock :=
  Clock "2023/11/14/el_2023-1114-221320+0000.dat" "el.dat" 1700000000 250000.
Definition clock_b : clock :=
  Clock "2023/11/14/el_2023-1114-221321+0000.dat" "el.dat" 1700000001 350000.

(** * Properties *)

(** Sequencing in [M], unfolded down to the case analysis on the outcome. *)
Ltac unfold_M := unfold mbind, M_bind, bind.

(** [_write_header] as its three steps: open, compose, write. *)
Ltac unfold_header :=
  try unfold _write_header;
  unfold _write_header_with, open_wb, lift, write; unfold_M; cbv beta iota.

(** ** Slices *)

Lemma length_slice (lo hi : nat) (b : bytes) :
  (hi <= length b)%nat -> length (slice lo hi b) = (hi - lo)%nat.
Proof.
  intros Hhi. unfold slice. rewrite length_take, length_drop. lia.
Qed.

Lemma slice_app_l (lo hi : nat) (b d : bytes) :
  (hi <= length b)%nat -> slice lo hi (b ++ d) = slice lo hi b.
Proof.
  intros Hhi. unfold slice.
  destruct (decide (lo <= length b)%nat) as [Hlo|Hlo].
  - rewrite drop_app_le by lia. rewrite take_app_le; [done|].
    rewrite length_drop. lia.
  - replace (hi - lo)%nat with 0%nat by lia. done.
Qed.

Lemma slice_app_end (lo hi : nat) (b d : bytes) :
  (lo <= length b)%nat -> (length b + length d <= hi)%nat ->
  slice lo hi (b ++ d) = slice lo hi b ++ d.
Proof.
  intros Hlo Hhi. unfold slice. rewrite drop_app_le by lia.
  rewrite !take_ge; [done| |]; rewrite ?length_app, length_drop; lia.
Qed.

(** ** The analyzer never raises *)

Lemma packets_length (tmpd : bytes) :
  length (packets tmpd) = (length tmpd / 15)%nat.
Proof. unfold packets. by rewrite length_map, length_seq. Qed.

Lemma packets_lookup (tmpd : bytes) (i : nat) :
  (i < length tmpd / 15)%nat ->
  packets tmpd !! i = Some (slice (15 * i) (15 * (i + 1)) tmpd).
Proof.
  intros Hi. unfold packets. rewrite list_lookup_fmap.
  rewrite lookup_seq_lt by done. done.
Qed.

Lemma packets_size (tmpd : bytes) :
  Forall (fun packet => length packet = 15%nat) (packets tmpd).
Proof.
  unfold packets. apply Forall_fmap, Forall_forall. intros i Hi.
  apply elem_of_seq in Hi. simpl.
  assert (15 * (length tmpd / 15) <= length tmpd)%nat
    by (apply Nat.Div0.mul_div_le).
  rewrite length_slice; lia.
Qed.

Lemma decode_ok (packet : bytes) (r : reader) :
  length packet = 15%nat ->
  exists r', decode packet r = Ok r' /\ same_session r r' /\
    carry_over r' = carry_over r.
Proof.
  intros Hlen. do 15 (destruct packet as [|? packet]; [done|]).
  unfold decode, index. cbn [lookup list_lookup obind].
  destruct (_ && _); eexists; (split; [reflexivity|]); by repeat split.
Qed.

Lemma decode_all_ok (ps : list bytes) (r : reader) :
  Forall (fun packet => length packet = 15%nat) ps ->
  exists r', decode_all ps r = Ok r' /\ same_session r r' /\
    carry_over r' = carry_over r.
Proof.
  intros Hps. revert r. induction Hps as [|packet ps Hp _ IH]; intros r.
  - exists r. by repeat split.
  - destruct (decode_ok packet r Hp) as (r1 & Hd & (?&?&?&?) & ?).
    destruct (IH r1) as (r2 & Hd2 & (?&?&?&?) & ?).
    exists r2. cbn [decode_all]. rewrite Hd. cbn [obind].
    repeat split; congruence.
Qed.

Lemma analyzer_ok (data : bytes) (r : reader) :
  exists r', analyzer data r = Ok r' /\ same_session r r' /\
    carry_over r' = snd (absorb (carry_over r) data).
Proof.
  unfold analyzer, absorb.
  destruct (decode_all_ok (packets (carry_over r ++ data))
              (set_carry_over
                 (drop (length (carry_over r ++ data) mod 15)
                    (carry_over r ++ data)) r)
              (packets_size _)) as (r' & Hd & Hs & Hc).
  exists r'. split; [exact Hd|]. split; [exact Hs|]. exact Hc.
Qed.

(** What [absorb] keeps is a whole number of packets: every byte of the
    packets it has just cut, and none of the trailing partial packet. *)
Lemma absorb_carry_length (carry data : bytes) :
  length (snd (absorb carry data)) =
  (15 * (length (carry ++ data) / 15))%nat.
Proof.
  unfold absorb. cbn [snd]. rewrite length_drop.
  pose proof (Nat.div_mod_eq (length (carry ++ data)) 15). lia.
Qed.

(** So the bytes are accounted for only when there is none. *)
Lemma absorb_conserving_iff (carry data : bytes) :
  (length carry + length data =
   15 * length (fst (absorb carry data)) + length (snd (absorb carry data)))%nat
  <-> carry ++ data = [].
Proof.
  rewrite absorb_carry_length. unfold absorb. cbn [fst].
  rewrite packets_length, <- length_app.
  pose proof (Nat.div_mod_eq (length (carry ++ data)) 15) as Hdm.
  pose proof (Nat.mod_upper_bound (length (carry ++ data)) 15) as Hmod.
  split.
  - intros Heq. apply length_zero_iff_nil. lia.
  - intros ->. reflexivity.
Qed.

Lemma byte_val_x99 (b : byte) : (byte_val b =? 153) = Byte.eqb b x99.
Proof. by destruct b. Qed.

Lemma byte_val_x66 (b : byte) : (byte_val b =? 102) = Byte.eqb b x66.
Proof. by destruct b. Qed.

(** ** The claims on the analyzer *)

(** C6. Classification of one 15-byte packet is a function of its bytes:
    with byte 0 equal to 0x99 and byte 14 equal to 0x66 it sets
    [ts_latest] to [ts_lsb + (ts_msb << 32)], where [ts_lsb] is the
    little-endian value of bytes 1-4 and [ts_msb] that of bytes 5-8 (and
    [state_latest] to the little-endian value of bytes 9-12); with any other
    header or footer the reader is returned as it was.  No packet of 15
    bytes raises. *)
Theorem decode_classification
    (b0 b1 b2 b3 b4 b5 b6 b7 b8 b9 b10 b11 b12 b13 b14 : byte) (r : reader) :
  let ts_lsb := byte_val b1 + 2 ^ 8 * byte_val b2 + 2 ^ 16 * byte_val b3
                + 2 ^ 24 * byte_val b4 in
  let ts_msb := byte_val b5 + 2 ^ 8 * byte_val b6 + 2 ^ 16 * byte_val b7
                + 2 ^ 24 * byte_val b8 in
  let status := byte_val b9 + 2 ^ 8 * byte_val b10 + 2 ^ 16 * byte_val b11
                + 2 ^ 24 * byte_val b12 in
  decode [b0; b1; b2; b3; b4; b5; b6; b7; b8; b9; b10; b11; b12; b13; b14] r =
  Ok (if Byte.eqb b0 x99 && Byte.eqb b14 x66
      then Reader (connected r) (current_path r) (file_len r) (res r)
                  (carry_over r) (ts_lsb + ts_msb * 2 ^ 32) status
      else r).
Proof.
  intros ts_lsb ts_msb status. unfold decode, index.
  cbn [lookup list_lookup obind slice drop take Nat.sub from_bytes_le].
  rewrite byte_val_x99, byte_val_x66.
  destruct (Byte.eqb b0 x99 && Byte.eqb b14 x66); [|done].
  unfold set_latest. rewrite Z.shiftl_mul_pow2 by lia.
  f_equal. f_equal; subst ts_lsb ts_msb status; lia.
Qed.

Lemma absorb_short (data : bytes) :
  (length data < 15)%nat -> absorb [] data = ([], []).
Proof.
  intros Hlen. unfold absorb, packets. cbn [app].
  rewrite Nat.div_small, Nat.mod_small by done. cbn [seq map].
  by rewrite drop_all.
Qed.

Lemma absorb_one (packet : bytes) :
  length packet = 15%nat -> absorb [] packet = ([packet], packet).
Proof.
  intros Hlen. unfold absorb, packets, slice. cbn [app]. rewrite Hlen.
  cbn [Nat.div Nat.divmod Nat.modulo fst snd seq map Nat.mul Nat.add Nat.sub drop].
  rewrite !drop_0. by rewrite take_ge by lia.
Qed.

(** C1, on the code: a packet of 15 bytes handed over in two pieces, cut
    anywhere inside it, gives no packet at all and an empty carry-over,
    while the same bytes in one call give the packet and keep all 15 bytes.
    The spec's example is [enc0] cut as [[:7]] and [[7:]]. *)
Theorem absorb_split_differs (B : bytes) (i : nat) :
  length B = 15%nat -> (0 < i < 15)%nat ->
  absorb_chunks [] [take i B; drop i B] = ([], []) /\
  absorb [] B = ([B], B).
Proof.
  intros Hlen Hi. split; [|by apply absorb_one].
  cbn [absorb_chunks].
  rewrite absorb_short by (rewrite length_take; lia).
  rewrite absorb_short by (rewrite length_drop; lia). done.
Qed.

(** The example of the spec: [enc0] cut at 7. *)
Lemma absorb_split_differs_witness :
  length enc0 = 15%nat /\ (0 < 7 < 15)%nat /\
  absorb_chunks [] [take 7 enc0; drop 7 enc0] = ([], []) /\
  absorb [] enc0 = ([enc0], enc0).
Proof.
  assert (length enc0 = 15%nat) as Hlen by reflexivity.
  assert (0 < 7 < 15)%nat as Hi by lia.
  split; [exact Hlen|]. split; [exact Hi|].
  exact (absorb_split_differs enc0 7 Hlen Hi).
Defined.

(** C2, on the code: the bytes that come in equal the bytes accounted for
    only when carry-over and chunk are both empty.  With an empty
    carry-over, the 15 bytes of [enc0] give one packet and a carry-over of
    15 bytes: 15 come in, 30 are accounted for; its first 7 bytes give no
    packet and an empty carry-over: 7 come in, none is accounted for. *)
Theorem absorb_not_conserving :
  (forall carry data : bytes,
     (length carry + length data =
      15 * length (fst (absorb carry data))
      + length (snd (absorb carry data)))%nat <-> carry ++ data = []) /\
  (length (@nil byte) + length enc0)%nat = 15%nat /\
  (15 * length (fst (absorb [] enc0)) + length (snd (absorb [] enc0)))%nat
    = 30%nat /\
  (length (@nil byte) + length (take 7 enc0))%nat = 7%nat /\
  (15 * length (fst (absorb [] (take 7 enc0)))
   + length (snd (absorb [] (take 7 enc0))))%nat = 0%nat.
Proof. split; [exact absorb_conserving_iff|]. repeat split; reflexivity. Qed.

(** C3, on the code: the packets are the [len // 15] leading 15-byte
    slices, in order, but the bytes kept are [tmpd[tmpr:]], a whole number of
    packets and never the trailing partial one: after a chunk of 7 bytes
    nothing is kept (the 7 trailing bytes are lost), and after a chunk of 15
    bytes all 15 are kept, a carry-over that is not shorter than 15. *)
Theorem absorb_keeps_leading_bytes :
  (forall carry data : bytes,
     let total := carry ++ data in
     length (fst (absorb carry data)) = (length total / 15)%nat /\
     (forall i, (i < length total / 15)%nat ->
        fst (absorb carry data) !! i
        = Some (take 15 (drop (15 * i) total))) /\
     snd (absorb carry data) = drop (length total mod 15) total /\
     length (snd (absorb carry data)) = (15 * (length total / 15))%nat) /\
  absorb [] (take 7 enc0) = ([], []) /\
  absorb [] enc0 = ([enc0], enc0) /\
  length (snd (absorb [] enc0)) = 15%nat.
Proof.
  split; [|repeat split; reflexivity].
  intros carry data total. split; [apply packets_length|].
  split; [|split; [reflexivity|apply absorb_carry_length]].
  intros i Hi. unfold absorb. cbn [fst]. rewrite packets_lookup by done.
  unfold slice. do 2 f_equal. lia.
Qed.

(** C5, on the code: a packet of 15 bytes, well-formed or not, handed to
    the analyzer in two pieces, cut anywhere inside it, leaves a reader with
    an empty carry-over exactly as it was, [ts_latest] included, whatever
    the timestamp of the packet.  For [enc1] (header 0x99, footer 0x66,
    timestamp 1) and a fresh reader [ts_latest] stays 0; handed over in one
    chunk, the packet sets it to 1. *)
Theorem latest_lost_on_split (R : bytes) (i : nat) (r : reader) :
  length R = 15%nat -> (0 < i < 15)%nat -> carry_over r = [] ->
  analyzer_chunks [take i R; drop i R] r = Ok r.
Proof.
  intros Hlen Hi Hcarry. destruct r as [c p f n co ts st].
  cbn [carry_over] in Hcarry. subst co.
  cbn [analyzer_chunks]. unfold analyzer at 1. cbn [carry_over].
  rewrite absorb_short by (rewrite length_take; lia).
  cbn [decode_all set_carry_over obind connected current_path file_len res
       ts_latest state_latest].
  unfold analyzer. cbn [carry_over].
  rewrite absorb_short by (rewrite length_drop; lia). done.
Qed.

(** [enc1] cut at 7, on a fresh reader, and [enc1] in one chunk. *)
Lemma latest_lost_on_split_witness :
  length enc1 = 15%nat /\ (0 < 7 < 15)%nat /\ carry_over (init FILE_LEN) = [] /\
  analyzer_chunks [take 7 enc1; drop 7 enc1] (init FILE_LEN)
    = Ok (init FILE_LEN) /\
  ts_latest (init FILE_LEN) = 0 /\
  analyzer_chunks [enc1] (init FILE_LEN)
    = Ok (Reader false None FILE_LEN (FILE_LEN * 15) enc1 1 0).
Proof.
  assert (length enc1 = 15%nat) as Hlen by reflexivity.
  assert (0 < 7 < 15)%nat as Hi by lia.
  assert (carry_over (init FILE_LEN) = []) as Hcarry by reflexivity.
  split; [exact Hlen|]. split; [exact Hi|]. split; [exact Hcarry|].
  split; [exact (latest_lost_on_split enc1 7 (init FILE_LEN) Hlen Hi Hcarry)|].
  split; reflexivity.
Defined.

(** ** The file header *)

Lemma length_le_digits (n : nat) (z : Z) : length (le_digits n z) = n.
Proof. revert z. induction n as [|n IH]; intros z; cbn; [done|]. by rewrite IH. Qed.

Lemma byte_val_of_Z (z : Z) : byte_val (byte_of_Z z) = z mod 256.
Proof.
  unfold byte_val, byte_of_Z.
  pose proof (Z.mod_pos_bound z 256 ltac:(lia)) as Hm.
  destruct (Byte.of_N (Z.to_N (z mod 256))) as [b|] eqn:Hb.
  - apply Byte.to_of_N in Hb. rewrite Hb. lia.
  - apply Byte.of_N_None_iff in Hb. lia.
Qed.

(** [le_digits] is the little-endian encoding [from_bytes_le] reads back. *)
Lemma from_bytes_le_digits (n : nat) (z : Z) :
  0 <= z -> from_bytes_le (le_digits n z) = z mod 256 ^ Z.of_nat n.
Proof.
  revert z. induction n as [|n IH]; intros z Hz.
  - cbn. by rewrite Z.mod_1_r.
  - cbn [le_digits from_bytes_le]. rewrite byte_val_of_Z.
    rewrite IH by (apply Z.div_pos; lia).
    rewrite Nat2Z.inj_succ, Z.pow_succ_r by lia.
    rewrite Z.rem_mul_r; [done|lia|]. apply Z.pow_pos_nonneg; lia.
Qed.

Lemma to_bytes4_ok (z : Z) :
  0 <= z < 2 ^ 32 -> to_bytes4 z = Ok (le_digits 4 z).
Proof.
  intros Hz. unfold to_bytes4.
  destruct (0 <=? z) eqn:H1; [|lia]. destruct (z <? 2 ^ 32) eqn:H2; [done|lia].
Qed.

Lemma build_header_fits (text : bytes) (version sec us : Z) :
  0 <= version < 2 ^ 32 -> 0 <= sec < 2 ^ 32 -> 0 <= us < 2 ^ 32 ->
  (16 + length text <= 256)%nat ->
  build_header text version sec us =
  Ok (txt "256" ++ [nl] ++ le_digits 4 version ++ le_digits 4 sec
      ++ le_digits 4 us ++ text ++ replicate (240 - length text) x20).
Proof.
  intros Hv Hs Hu Hlen. unfold build_header.
  rewrite !to_bytes4_ok by done. cbn [obind].
  rewrite !length_app, !length_le_digits.
  change (length (txt "256")) with 3%nat. change (length [nl]) with 1%nat.
  destruct (Z.ltb_spec (256 - Z.of_nat (3 + 1 + 4 + 4 + 4 + length text)) 0);
    [lia|].
  rewrite <- !app_assoc. do 6 f_equal.
  replace (Z.to_nat _) with (240 - length text)%nat by lia. done.
Qed.

Lemma build_header_exceeds (text : bytes) (version sec us : Z) :
  0 <= version < 2 ^ 32 -> 0 <= sec < 2 ^ 32 -> 0 <= us < 2 ^ 32 ->
  (256 < 16 + length text)%nat ->
  build_header text version sec us = Raise HeaderTooLong.
Proof.
  intros Hv Hs Hu Hlen. unfold build_header.
  rewrite !to_bytes4_ok by done. cbn [obind].
  rewrite !length_app, !length_le_digits.
  change (length (txt "256")) with 3%nat. change (length [nl]) with 1%nat.
  destruct (Z.ltb_spec (256 - Z.of_nat (3 + 1 + 4 + 4 + 4 + length text)) 0);
    [done|lia].
Qed.

Lemma VERSION_fits : 0 <= VERSION < 2 ^ 32.
Proof. unfold VERSION. lia. Qed.

Lemma HEADER_TXT_length : length HEADER_TXT = 204%nat.
Proof. reflexivity. Qed.

Lemma length_header_of (now : clock) : length (header_of now) = 256%nat.
Proof.
  unfold header_of. rewrite !length_app, !length_le_digits, HEADER_TXT_length.
  reflexivity.
Qed.

Lemma build_header_now (now : clock) :
  clock_ok now ->
  build_header HEADER_TXT VERSION (utime_int now) (utime_us now)
  = Ok (header_of now).
Proof.
  intros [Hs Hu].
  rewrite build_header_fits
    by first [apply VERSION_fits | assumption | rewrite HEADER_TXT_length; lia].
  unfold header_of. by rewrite HEADER_TXT_length.
Qed.

Lemma write_header_ok (path : string) (now : clock) (w : world) :
  clock_ok now ->
  _write_header path now w =
  (Ok tt, World (self w) (<[path := header_of now]> (fs w)) (client w)).
Proof.
  intros Hok. unfold_header.
  rewrite (build_header_now now Hok). cbn [self fs client].
  rewrite lookup_insert_eq, insert_insert_eq. done.
Qed.

(** C8, as amended. At every construction time whose seconds and
    microseconds fit an unsigned 4-byte field, and for any static text:
    when the 16 bytes of fixed fields plus the text fit in 256 bytes, the
    header is the length tag, the version, the seconds and the microseconds
    (4 bytes each, little-endian), the text and the space padding, exactly
    256 bytes in all, and that is what the file holds; when they exceed 256
    bytes, construction fails with HEADER TOO LONG and the file, opened
    already, holds no byte.  The fixed text fits. *)
Theorem header_fixed_size (text : bytes) (path : string) (now : clock) (w : world) :
  clock_ok now ->
  ((16 + length text <= 256)%nat ->
   exists header,
     build_header text VERSION (utime_int now) (utime_us now) = Ok header /\
     length header = 256%nat /\
     header = txt "256" ++ [nl] ++ le_digits 4 VERSION
              ++ le_digits 4 (utime_int now) ++ le_digits 4 (utime_us now)
              ++ text ++ replicate (240 - length text) x20 /\
     _write_header_with text VERSION path now w =
     (Ok tt, World (self w) (<[path := header]> (fs w)) (client w))) /\
  ((256 < 16 + length text)%nat ->
   build_header text VERSION (utime_int now) (utime_us now)
     = Raise HeaderTooLong /\
   _write_header_with text VERSION path now w =
   (Raise HeaderTooLong, World (self w) (<[path := []]> (fs w)) (client w))) /\
  (16 + length HEADER_TXT <= 256)%nat.
Proof.
  intros [Hs Hu]. split; [|split].
  - intros Hfit. eexists. split; [|split; [|split]].
    + apply build_header_fits; [apply VERSION_fits|done..].
    + rewrite !length_app, !length_le_digits, length_replicate.
      change (length (txt "256")) with 3%nat. change (length [nl]) with 1%nat.
      lia.
    + reflexivity.
    + unfold_header.
      rewrite build_header_fits by first [apply VERSION_fits | assumption].
      cbn [self fs client]. by rewrite lookup_insert_eq, insert_insert_eq.
  - intros Hlong.
    assert (build_header text VERSION (utime_int now) (utime_us now)
            = Raise HeaderTooLong) as Hb
      by (apply build_header_exceeds; [apply VERSION_fits|done..]).
    split; [exact Hb|].
    unfold_header. by rewrite Hb.
  - rewrite HEADER_TXT_length. lia.
Qed.

(** The fixed text at a time in 2023, and a text one byte too long. *)
Lemma header_fixed_size_witness :
  clock_ok clock_a /\
  (exists header,
     build_header HEADER_TXT VERSION 1700000000 250000 = Ok header /\
     length header = 256%nat) /\
  build_header (replicate 241 x20) VERSION 1700000000 250000
    = Raise HeaderTooLong.
Proof.
  assert (clock_ok clock_a)
    as Hok by (unfold clock_ok; cbn; lia).
  split; [exact Hok|]. split.
  - destruct (header_fixed_size HEADER_TXT "el.dat" _
                (World (init FILE_LEN) ∅ []) Hok) as (Hfit & _ & Hlen).
    destruct (Hfit Hlen) as (header & Hb & Hl & _).
    exists header. split; [exact Hb|exact Hl].
  - destruct (header_fixed_size (replicate 241 x20) "el.dat" _
                (World (init FILE_LEN) ∅ []) Hok) as (_ & Hlong & _).
    apply Hlong. rewrite length_replicate. lia.
Defined.

(** C8 as stated fails at a construction time past the 4-byte range: at
    [2^32] seconds the fixed fields and the text take 220 bytes, yet no
    header is composed: [to_bytes] raises. *)
Lemma header_overflowing_time :
  (16 + length HEADER_TXT <= 256)%nat /\
  build_header HEADER_TXT VERSION (2 ^ 32) 0 = Raise OverflowError /\
  fst (_write_header "el.dat" (Clock "el.dat" "el.dat" (2 ^ 32) 0)
         (World (init FILE_LEN) ∅ [])) = Raise OverflowError.
Proof. split; [|split]; [rewrite HEADER_TXT_length; lia|reflexivity..]. Qed.

(** ** The socket *)

Lemma take_seg_concat (n : nat) (segs segs' : list bytes) (data : bytes) :
  take_seg n segs = (data, segs') -> data ++ concat segs' = concat segs.
Proof.
  unfold take_seg. destruct segs as [|seg segs0]; [by intros [= <- <-]|].
  destruct (_ <=? _)%nat; intros [= <- <-]; [done|].
  cbn [concat]. by rewrite app_assoc, take_drop.
Qed.

Lemma take_seg_length (n : nat) (segs segs' : list bytes) (data : bytes) :
  take_seg n segs = (data, segs') -> (length data <= n)%nat.
Proof.
  unfold take_seg. destruct segs as [|seg segs0]; [intros [= <- <-]; cbn; lia|].
  destruct (Nat.leb_spec (length seg) n); intros [= <- <-]; [done|].
  rewrite length_take. lia.
Qed.

Lemma take_seg_nonempty (n : nat) (segs segs' : list bytes) (data : bytes) :
  Forall (fun seg => seg <> []) segs ->
  take_seg n segs = (data, segs') -> Forall (fun seg => seg <> []) segs'.
Proof.
  unfold take_seg. intros Hne. destruct Hne as [|seg segs0 Hseg Hne];
    [by intros [= <- <-]|].
  destruct (Nat.leb_spec (length seg) n); intros [= <- <-]; [done|].
  constructor; [|done]. intros Hd.
  apply (f_equal length) in Hd. rewrite length_drop in Hd. cbn in Hd. lia.
Qed.

Lemma take_seg_progress (n : nat) (segs segs' : list bytes) (data : bytes) :
  Forall (fun seg => seg <> []) segs -> segs <> [] -> (0 < n)%nat ->
  take_seg n segs = (data, segs') -> data <> [].
Proof.
  unfold take_seg. intros Hne Hsegs Hn.
  destruct Hne as [|seg segs0 Hseg Hne]; [done|].
  destruct (Nat.leb_spec (length seg) n); intros [= <- <-]; [done|].
  intros Hd. apply (f_equal length) in Hd. rewrite length_take in Hd.
  cbn in Hd. lia.
Qed.

Lemma recv_num_min (rest : Z) : recv_num rest = Z.min rest RECV_BUFLEN.
Proof. unfold recv_num. destruct (Z.gtb_spec rest RECV_BUFLEN); lia. Qed.

Lemma recv_ok (n : Z) (w : world) :
  0 <= n ->
  recv n w = (Ok (fst (take_seg (Z.to_nat n) (client w))),
              World (self w) (fs w) (snd (take_seg (Z.to_nat n) (client w)))).
Proof.
  intros Hn. unfold recv. destruct (Z.ltb_spec n 0); [lia|].
  by destruct (take_seg _ _).
Qed.

(** ** Bulk capture *)

(** With at least one byte per [recv] and enough of them, the loop of
    [get_write] ends, having moved exactly [rest] bytes from the stream to
    the end of the file. *)
Lemma get_write_loop_ok (fuel : nat) (path : string) :
  forall (rest : Z) (r : reader) (files : gmap string bytes)
         (segs : list bytes) (old : bytes),
  0 <= rest -> (Z.to_nat rest <= fuel)%nat ->
  Forall (fun seg => seg <> []) segs ->
  rest <= Z.of_nat (length (concat segs)) ->
  files !! path = Some old ->
  exists segs',
    get_write_loop fuel path rest (World r files segs) =
    (Ok tt, World r (<[path := old ++ take (Z.to_nat rest) (concat segs)]> files)
                  segs') /\
    concat segs' = drop (Z.to_nat rest) (concat segs).
Proof.
  induction fuel as [|fuel IH]; intros rest r files segs old Hrest Hfuel Hne Hlen Hold.
  - assert (rest = 0) as -> by lia. exists segs. cbn.
    rewrite app_nil_r, insert_id by done. done.
  - cbn [get_write_loop]. destruct (Z.gtb_spec rest 0) as [Hpos|Hzero].
    + unfold_M.
      rewrite recv_ok by (rewrite recv_num_min; unfold RECV_BUFLEN; lia).
      cbn [client self fs].
      destruct (take_seg (Z.to_nat (recv_num rest)) segs) as [data segs1] eqn:Hts.
      cbn [fst snd]. unfold write at 1. cbn [client self fs]. rewrite Hold.
      cbn [from_option id].
      pose proof (take_seg_concat _ _ _ _ Hts) as Hcat.
      pose proof (take_seg_length _ _ _ _ Hts) as Hdlen.
      pose proof (take_seg_nonempty _ _ _ _ Hne Hts) as Hne1.
      assert (segs <> []) as Hsegs by (intros ->; cbn in Hlen; lia).
      assert (data <> []) as Hdata.
      { eapply take_seg_progress; [exact Hne|exact Hsegs| |exact Hts].
        rewrite recv_num_min. unfold RECV_BUFLEN. lia. }
      assert (0 < length data)%nat as Hdpos
        by (destruct data; [done|cbn; lia]).
      assert (Z.of_nat (length data) <= rest) as Hdrest
        by (rewrite recv_num_min in Hdlen; lia).
      assert (length (concat segs) = length data + length (concat segs1))%nat
        as Hsum by (rewrite <- Hcat, length_app; done).
      destruct (IH (rest - Z.of_nat (length data)) r
                  (<[path := old ++ data]> files) segs1 (old ++ data))
        as (segs' & Hloop & Hrem); [lia|lia|done|lia|apply lookup_insert_eq|].
      exists segs'. rewrite Hloop. rewrite insert_insert_eq. split.
      * do 3 f_equal. rewrite <- Hcat, <- app_assoc. f_equal.
        rewrite take_app_ge by lia. f_equal. f_equal. lia.
      * rewrite Hrem, <- Hcat. rewrite drop_app_ge by lia. f_equal. lia.
    + assert (rest = 0) as -> by lia. exists segs. cbn.
      rewrite app_nil_r, insert_id by done. done.
Qed.

Lemma build_header_raises (text : bytes) (version sec us : Z) :
  build_header text version sec us <> Raise NotConnected /\
  build_header text version sec us <> OutOfFuel.
Proof.
  unfold build_header, to_bytes4.
  repeat (destruct (_ && _); cbn [obind]; [|done]).
  by destruct (_ <? 0).
Qed.








(** C4, on the code: a connected bulk capture of one record writes the
    256-byte header, then opens the same path with ['wb'] again, which
    empties it: the finished file is the 15 record bytes and nothing else.
    A rotating capture of the same stream appends with ['ab'] and keeps the
    header. *)
Theorem get_write_drops_header :
  let w := World (set_connected true (init FILE_LEN)) ∅ [enc0] in
  let now := clock_a in
  _write_header "el.dat" now w
    = (Ok tt, World (self w) {["el.dat" := header_of now]} [enc0]) /\
  get_write 15 1 (Some "el.dat") now w
    = (Ok tt, World (self w) {["el.dat" := enc0]} []) /\
  fs (snd (fill now w)) = {[dated_path now := header_of now ++ enc0]}.
Proof. intros w now. repeat split; vm_compute; reflexivity. Qed.

(** ** Rotating capture: one call of [fill] *)

Lemma build_header_length (text : bytes) (version sec us : Z) (header : bytes) :
  build_header text version sec us = Ok header -> length header = 256%nat.
Proof.
  unfold build_header, to_bytes4.
  repeat (destruct (_ && _); cbn [obind]; [|done]).
  match goal with
  | |- context [?a <? 0] => destruct (Z.ltb_spec a 0) as [Hlt|Hge]
  end; [done|].
  intros [= <-]. cbn [length]. rewrite !length_app, length_replicate.
  rewrite !length_app, !length_le_digits in *.
  change (length (txt "256")) with 3%nat in *.
  change (length [nl]) with 1%nat in *. lia.
Qed.

Lemma fill_initialization_eq (now : clock) (r : reader)
    (files : gmap string bytes) (segs : list bytes) :
  fill_initialization now (World r files segs) =
  match current_path r with
  | Some _ => (Ok tt, World r files segs)
  | None =>
      let p := dated_path now in
      match files !! p with
      | Some _ => (Raise FilenameCollision, World r files segs)
      | None =>
          match build_header HEADER_TXT VERSION (utime_int now) (utime_us now) with
          | Ok h =>
              (Ok tt, World (set_res (file_len r * 15)
                               (set_current_path (Some p) r))
                            (<[p := h]> files) segs)
          | Raise e =>
              (Raise e, World (set_current_path (Some p) r)
                              (<[p := []]> files) segs)
          | OutOfFuel =>
              (OutOfFuel, World (set_current_path (Some p) r)
                                (<[p := []]> files) segs)
          end
      end
  end.
Proof.
  unfold fill_initialization, mbind, M_bind, bind, get_self. cbn [self].
  destruct (current_path r) as [p0|]; [done|].
  unfold path_creator at 1. cbn [fs]. cbv zeta.
  destruct (files !! dated_path now); [done|].
  unfold modify at 1. cbn [self fs client].
  unfold_header. cbn [self fs client].
  destruct (build_header _ _ _ _) as [h|e|]; [|done..].
  unfold modify. cbn [self fs client].
  by rewrite lookup_insert_eq, insert_insert_eq.
Qed.

Lemma fill_body_eq (r : reader) (files : gmap string bytes) (segs : list bytes) :
  fill_body (World r files segs) =
  if recv_num (res r) <? 0 then (Raise ValueError, World r files segs) else
  let data := fst (take_seg (Z.to_nat (recv_num (res r))) segs) in
  let segs' := snd (take_seg (Z.to_nat (recv_num (res r))) segs) in
  let r1 := set_res (res r - Z.of_nat (length data)) r in
  match current_path r with
  | Some p =>
      (Ok data,
       World (if res r1 <=? 0 then set_current_path None r1 else r1)
             (<[p := default [] (files !! p) ++ data]> files) segs')
  | None => (Raise TypeError, World r1 files segs')
  end.
Proof.
  unfold fill_body, mbind, M_bind, bind, get_self. cbn [self].
  unfold recv at 1. cbn [self fs client].
  destruct (_ <? 0); [done|].
  destruct (take_seg _ segs) as [data segs']. cbn [fst snd]. cbv zeta.
  unfold modify at 1. cbn [self fs client current_path set_res].
  destruct (current_path r) as [p|]; [|done].
  unfold write at 1. cbn [self fs client res set_res].
  by destruct (_ <=? 0).
Qed.

Lemma fill_analyzer_ok (data : bytes) (r : reader)
    (files : gmap string bytes) (segs : list bytes) :
  exists r', fill_analyzer data (World r files segs) = (Ok tt, World r' files segs)
    /\ same_session r r'.
Proof.
  destruct (analyzer_ok data r) as (r' & Ha & Hs & _).
  exists r'. split; [|exact Hs].
  unfold fill_analyzer, mbind, M_bind, bind, get_self, lift. cbn [self].
  by rewrite Ha.
Qed.

(** [fill] once the initialization has left a current file [p] with room
    for [res r0 >= 0] more bytes. *)
Lemma fill_after_initialization (now : clock) (w : world) (r0 : reader)
    (files0 : gmap string bytes) (p : string) :
  fill_initialization now w = (Ok tt, World r0 files0 (client w)) ->
  current_path r0 = Some p -> 0 <= res r0 ->
  let data := fst (take_seg (Z.to_nat (recv_num (res r0))) (client w)) in
  exists r',
    fill now w =
    (Ok tt, World r' (<[p := default [] (files0 !! p) ++ data]> files0)
                  (snd (take_seg (Z.to_nat (recv_num (res r0))) (client w)))) /\
    connected r' = connected r0 /\ file_len r' = file_len r0 /\
    res r' = res r0 - Z.of_nat (length data) /\
    current_path r' =
      (if res r0 - Z.of_nat (length data) <=? 0 then None else Some p).
Proof.
  intros Hinit Hp Hres data.
  unfold fill; unfold_M. rewrite Hinit, fill_body_eq.
  destruct (Z.ltb_spec (recv_num (res r0)) 0) as [Hneg|_];
    [rewrite recv_num_min in Hneg; unfold RECV_BUFLEN in Hneg; lia|].
  cbv zeta. rewrite Hp. fold data.
  match goal with
  | |- context [fill_analyzer data (World ?r ?f ?s)] =>
      destruct (fill_analyzer_ok data r f s) as (r' & Ha & Hc & Hcp & Hfl & Hr)
  end.
  exists r'. rewrite Ha. split; [done|].
  rewrite Hc, Hcp, Hfl, Hr. cbn [res set_res].
  destruct (_ <=? 0); by repeat split.
Qed.

(** ** Rotating capture: the capacity of a file *)

Lemma take_seg_fst_length (n : nat) (segs : list bytes) :
  (length (fst (take_seg n segs)) <= n)%nat.
Proof.
  apply (take_seg_length n segs (snd (take_seg n segs))).
  by destruct (take_seg n segs).
Qed.

Section Capacity.

Variable F : Z.
Variable files0 : gmap string bytes.
Hypothesis HF : 0 <= F.

Lemma capacity_body (now : clock) (w : world) (r0 : reader)
    (files1 : gmap string bytes) (p : string) :
  fill_initialization now w = (Ok tt, World r0 files1 (client w)) ->
  capacity_inv F files0 (World r0 files1 (client w)) ->
  current_path r0 = Some p ->
  exists w', fill now w = (Ok tt, w') /\ capacity_inv F files0 w'.
Proof.
  intros Hinit (Hfl & Hres & Hfiles & Hcur) Hp. cbn [self fs] in *.
  destruct (Hcur p Hp) as (c & Hc & Hroom).
  destruct (fill_after_initialization now w r0 files1 p Hinit Hp Hres)
    as (r' & Hfill & _ & Hfl' & Hres' & Hcur').
  pose proof (take_seg_fst_length (Z.to_nat (recv_num (res r0))) (client w))
    as Hd.
  set (data := fst (take_seg (Z.to_nat (recv_num (res r0))) (client w))) in *.
  rewrite recv_num_min in Hd.
  eexists. split; [exact Hfill|]. rewrite Hc. cbn [from_option id].
  repeat split; cbn [self fs].
  - congruence.
  - lia.
  - intros path content Hnew. destruct (decide (p = path)) as [<-|Hne].
    + rewrite lookup_insert_eq. intros [= <-]. rewrite length_app. lia.
    + rewrite lookup_insert_ne by done. by apply Hfiles.
  - intros p'. rewrite Hcur'. destruct (_ <=? 0); [done|]. intros [= <-].
    exists (c ++ data). rewrite lookup_insert_eq. split; [done|].
    rewrite length_app. lia.
Qed.

Lemma capacity_fill (now : clock) (w : world) :
  capacity_inv F files0 w ->
  (fst (fill now w) = Ok tt -> capacity_inv F files0 (snd (fill now w))) /\
  0 <= res (self (snd (fill now w))) /\
  (forall path content, files0 !! path = None ->
     fs (snd (fill now w)) !! path = Some content ->
     Z.of_nat (length content) <= 256 + F * 15).
Proof.
  intros Hinv.
  assert (forall w', fill now w = (Ok tt, w') -> capacity_inv F files0 w' ->
          (fst (fill now w) = Ok tt -> capacity_inv F files0 (snd (fill now w))) /\
          0 <= res (self (snd (fill now w))) /\
          (forall path content, files0 !! path = None ->
             fs (snd (fill now w)) !! path = Some content ->
             Z.of_nat (length content) <= 256 + F * 15)) as Hdone.
  { intros w' -> Hinv'. cbn [fst snd]. split; [done|].
    destruct Hinv' as (_ & ? & ? & _). done. }
  destruct w as [r files segs].
  pose proof (fill_initialization_eq now r files segs) as Hinit.
  destruct (current_path r) as [p|] eqn:Hp.
  - destruct (capacity_body now _ r files p Hinit Hinv Hp)
      as (w' & Hfill & Hinv'). by apply (Hdone w').
  - cbv zeta in Hinit. destruct Hinv as (Hfl & Hres & Hfiles & Hcur).
    cbn [self fs] in *.
    destruct (files !! dated_path now) eqn:Hfree.
    { unfold fill; unfold_M. rewrite Hinit. cbn [fst snd self fs].
      by repeat split. }
    destruct (build_header _ _ _ _) as [h|e|] eqn:Hh.
    + apply build_header_length in Hh.
      destruct (capacity_body now _ _ _ (dated_path now) Hinit)
        as (w' & Hfill & Hinv'); [|done|by apply (Hdone w')].
      repeat split; cbn [self fs set_res set_current_path file_len res current_path].
      * done.
      * lia.
      * intros path content Hnew.
        destruct (decide (dated_path now = path)) as [<-|Hne].
        -- rewrite lookup_insert_eq. intros [= <-]. lia.
        -- rewrite lookup_insert_ne by done. by apply Hfiles.
      * intros p' [= <-]. exists h. rewrite lookup_insert_eq. split; [done|].
        lia.
    + unfold fill; unfold_M. rewrite Hinit.
      cbn [fst snd self fs set_current_path res].
      split; [done|]. split; [done|]. intros path content Hnew.
      destruct (decide (dated_path now = path)) as [<-|Hne].
      * rewrite lookup_insert_eq. intros [= <-]. cbn. lia.
      * rewrite lookup_insert_ne by done. by apply Hfiles.
    + by destruct (build_header_raises HEADER_TXT VERSION (utime_int now)
                     (utime_us now)).
Qed.

Lemma capacity_fills (clk : list clock) :
  forall w, capacity_inv F files0 w ->
  0 <= res (self (snd (fills clk w))) /\
  (forall path content, files0 !! path = None ->
     fs (snd (fills clk w)) !! path = Some content ->
     Z.of_nat (length content) <= 256 + F * 15).
Proof.
  induction clk as [|now clk IH]; intros w Hinv.
  - cbn. destruct Hinv as (_ & ? & ? & _). done.
  - destruct (capacity_fill now w Hinv) as (Hok & Hres & Hfiles).
    cbn [fills]. unfold_M.
    destruct (fill now w) as [[[]|e|] w'] eqn:Hfill; cbn [fst snd] in *;
      [by apply IH, Hok|done..].
Qed.

Lemma capacity_start (segs : list bytes) :
  capacity_inv F files0 (start F files0 segs).
Proof.
  unfold start, init. repeat split; cbn; [lia| |done].
  intros path content Hnew Hold. congruence.
Qed.

End Capacity.

(** C10. The size [fill] asks [recv] for is the minimum of the remaining
    capacity and the receive buffer limit; so, for a reader of [F >= 0]
    records per file, after any number of [fill] calls on any stream the
    counter [res] is not negative and in every file the capture has made the
    bytes after the 256-byte header are at most [F * 15]. *)
Theorem fill_capacity (F : Z) (files : gmap string bytes) (segs : list bytes)
    (clk : list clock) :
  0 <= F ->
  (forall rest, recv_num rest = Z.min rest RECV_BUFLEN) /\
  0 <= res (self (snd (fills clk (start F files segs)))) /\
  (forall path content, files !! path = None ->
     fs (snd (fills clk (start F files segs))) !! path = Some content ->
     Z.of_nat (length (drop 256 content)) <= F * 15).
Proof.
  intros HF. split; [exact recv_num_min|].
  destruct (capacity_fills F files HF clk _ (capacity_start F files HF segs))
    as [Hres Hfiles].
  split; [exact Hres|]. intros path content Hnew Hc.
  specialize (Hfiles path content Hnew Hc). rewrite length_drop. lia.
Qed.

(** ** Rotating capture: the files *)

Section Rotation.

Variable F : Z.
Variable files0 : gmap string bytes.
Hypothesis HF : 0 < F.

Lemma rotating_append (ps : list string)
    (T : bytes) (r0 : reader) (files1 : gmap string bytes) (segs0 : list bytes)
    (p : string) (r' : reader) (d : bytes) (segs' : list bytes) :
  rotating F files0 ps T (World r0 files1 segs0) ->
  current_path r0 = Some p ->
  d <> [] -> Z.of_nat (length d) <= res r0 ->
  file_len r' = file_len r0 ->
  res r' = res r0 - Z.of_nat (length d) ->
  current_path r' = (if res r0 - Z.of_nat (length d) <=? 0 then None else Some p) ->
  rotated F files0 ps (T ++ d)
    (World r' (<[p := default [] (files1 !! p) ++ d]> files1) segs').
Proof.
  intros (Hfl & Hnd & Hnew & Hold & Hfile & Hcur) Hp Hd Hdres Hfl' Hres' Hcur'.
  cbn [self fs] in *. rewrite Hp in Hcur.
  destruct Hcur as (j & Hj & Hlen & Hbounds & Hres).
  destruct (Hfile j p Hj) as (hdr & Hhdr & Hc).
  set (N := Z.to_nat (F * 15)) in *.
  assert (0 < N)%nat as HN by (subst N; lia).
  assert (0 < length d)%nat as Hdpos by (destruct d; [done|cbn; lia]).
  assert (p ∈ ps) as Hin by (eapply list_elem_of_lookup_2; exact Hj).
  rewrite Hc. cbn [from_option id].
  split; [repeat split|]; cbn [self fs].
  - congruence.
  - done.
  - done.
  - intros q Hq. rewrite lookup_insert_ne by (intros ->; done). by apply Hold.
  - intros i q Hi. destruct (decide (i = j)) as [->|Hij].
    + assert (q = p) as -> by congruence. rewrite lookup_insert_eq.
      exists hdr. split; [done|]. rewrite slice_app_end by lia.
      by rewrite app_assoc.
    + assert (q <> p) as Hqp
        by (intros ->; apply Hij; eapply NoDup_lookup; eauto).
      rewrite lookup_insert_ne by done.
      destruct (Hfile i q Hi) as (hdr' & Hhdr' & Hc').
      exists hdr'. split; [done|]. rewrite slice_app_l; [done|].
      apply lookup_lt_Some in Hi. nia.
  - rewrite Hcur', length_app.
    destruct (Z.leb_spec (res r0 - Z.of_nat (length d)) 0).
    + rewrite Hlen. lia.
    + exists j. repeat split; [done|done|lia|lia|lia].
  - intros _. rewrite length_app, Hlen. replace (S j - 1)%nat with j by lia.
    lia.
Qed.

Lemma rotating_open (ps : list string)
    (T : bytes) (r : reader) (files : gmap string bytes) (segs : list bytes)
    (p : string) (h : bytes) :
  rotating F files0 ps T (World r files segs) ->
  current_path r = None ->
  files0 !! p = None -> p ∉ ps -> length h = 256%nat ->
  rotating F files0 (ps ++ [p]) T
    (World (set_res (file_len r * 15) (set_current_path (Some p) r))
           (<[p := h]> files) segs).
Proof.
  intros (Hfl & Hnd & Hnew & Hold & Hfile & Hcur) Hidle Hfree Hp Hh.
  cbn [self fs] in *. rewrite Hidle in Hcur.
  set (N := Z.to_nat (F * 15)) in *.
  assert (0 < N)%nat as HN by (subst N; lia).
  repeat split; cbn [self fs set_res set_current_path file_len current_path res].
  - done.
  - apply NoDup_app. split; [done|]. split; [|apply NoDup_singleton].
    intros q Hq Hq'. apply list_elem_of_singleton in Hq'. by subst.
  - intros q Hq. apply elem_of_app in Hq as [Hq|Hq]; [by apply Hnew|].
    apply list_elem_of_singleton in Hq. by subst.
  - intros q Hq. rewrite lookup_insert_ne.
    + apply Hold. intros Hq'. apply Hq, elem_of_app. by left.
    + intros ->. apply Hq, elem_of_app. right. by apply list_elem_of_singleton.
  - intros i q Hi. destruct (decide (i < length ps)%nat) as [Hlt|Hge].
    + rewrite lookup_app_l in Hi by done.
      assert (q <> p) as Hqp
        by (intros ->; apply Hp; eapply list_elem_of_lookup_2; exact Hi).
      rewrite lookup_insert_ne by done. by apply Hfile.
    + rewrite lookup_app_r in Hi by lia.
      destruct (i - length ps)%nat as [|n] eqn:Hn; [|done].
      assert (i = length ps) as -> by lia.
      cbn in Hi. injection Hi as <-. rewrite lookup_insert_eq.
      exists h. split; [done|]. unfold slice. rewrite drop_ge by lia.
      by rewrite take_nil, app_nil_r.
  - exists (length ps). repeat split.
    + rewrite lookup_app_r by lia. by rewrite Nat.sub_diag.
    + rewrite length_app. cbn. lia.
    + lia.
    + lia.
    + rewrite Hfl. subst N. lia.
Qed.

Lemma rotated_fill (ps : list string) (T : bytes) (now : clock) (w : world) :
  rotated F files0 ps T w ->
  client w <> [] -> Forall (fun seg => seg <> []) (client w) ->
  clock_ok now -> files0 !! dated_path now = None -> dated_path now ∉ ps ->
  exists w' ps' d,
    fill now w = (Ok tt, w') /\ d <> [] /\
    d ++ concat (client w') = concat (client w) /\
    Forall (fun seg => seg <> []) (client w') /\
    rotated F files0 ps' (T ++ d) w' /\
    (ps' = ps \/ ps' = ps ++ [dated_path now]).
Proof.
  intros [Hrot Hstrict] Hsegs Hne Hok Hfree Hfresh.
  assert (forall r0 files1 ps' p,
    fill_initialization now w = (Ok tt, World r0 files1 (client w)) ->
    rotating F files0 ps' T (World r0 files1 (client w)) ->
    current_path r0 = Some p ->
    exists w' d,
      fill now w = (Ok tt, w') /\ d <> [] /\
      d ++ concat (client w') = concat (client w) /\
      Forall (fun seg => seg <> []) (client w') /\
      rotated F files0 ps' (T ++ d) w') as Hbody.
  { intros r0 files1 ps' p Hinit Hrot' Hp.
    pose proof Hrot' as (_ & _ & _ & _ & _ & Hcur). cbn [self] in Hcur.
    rewrite Hp in Hcur. destruct Hcur as (j & _ & _ & Hbounds & Hres).
    destruct (fill_after_initialization now w r0 files1 p Hinit Hp)
      as (r' & Hfill & _ & Hfl' & Hres' & Hcur'); [lia|].
    destruct (take_seg (Z.to_nat (recv_num (res r0))) (client w))
      as [d segs'] eqn:Hts. cbn [fst snd] in *.
    pose proof (take_seg_length _ _ _ _ Hts) as Hdlen.
    rewrite recv_num_min in Hdlen.
    assert (d <> []) as Hd.
    { eapply take_seg_progress; [exact Hne|exact Hsegs| |exact Hts].
      rewrite recv_num_min. unfold RECV_BUFLEN. lia. }
    eexists. exists d. split; [exact Hfill|]. cbn [client].
    split; [exact Hd|]. split; [by eapply take_seg_concat|].
    split; [by eapply take_seg_nonempty|].
    eapply rotating_append; eauto. lia. }
  destruct w as [r files segs]. cbn [client self] in *.
  pose proof (fill_initialization_eq now r files segs) as Hinit.
  destruct (current_path r) as [p|] eqn:Hp.
  - destruct (Hbody r files ps p Hinit Hrot Hp) as (w' & d & H).
    exists w', ps, d. intuition.
  - cbv zeta in Hinit.
    assert (files !! dated_path now = None) as Hnone.
    { destruct Hrot as (_ & _ & _ & Hold & _). cbn [fs] in Hold.
      by rewrite Hold. }
    rewrite Hnone, (build_header_now now Hok) in Hinit.
    destruct (Hbody _ _ (ps ++ [dated_path now]) (dated_path now) Hinit)
      as (w' & d & H).
    + apply rotating_open; first [done | apply length_header_of].
    + done.
    + exists w', (ps ++ [dated_path now]), d. intuition.
Qed.

Lemma main_loop_rotated :
  forall (clk : list clock) (w : world) (ps : list string) (T : bytes),
  rotated F files0 ps T w ->
  Forall (fun seg => seg <> []) (client w) ->
  (length (concat (client w)) <= length clk)%nat ->
  NoDup (dated_path <$> clk) ->
  Forall (fun now => clock_ok now /\ files0 !! dated_path now = None /\
                     dated_path now ∉ ps) clk ->
  exists w' ps',
    main_loop clk w = (Ok tt, w') /\ client w' = [] /\
    rotated F files0 ps' (T ++ concat (client w)) w'.
Proof.
  induction clk as [|now clk IH]; intros w ps T Hrot Hne Hlen Hnd Hclk.
  - destruct w as [r files [|seg segs]]; cbn [client] in *.
    + exists (World r files []), ps. cbn. by rewrite app_nil_r.
    + apply Forall_cons in Hne as [Hseg _]. destruct seg; [done|].
      cbn in Hlen. lia.
  - destruct (client w) as [|seg segs] eqn:Hcl.
    + exists w, ps. destruct w as [r files cl]. cbn [client] in Hcl. subst cl.
      cbn. by rewrite app_nil_r.
    + apply Forall_cons in Hclk as [(Hok & Hfree & Hfresh) Hclk].
      cbn [fmap list_fmap] in Hnd. apply NoDup_cons in Hnd as [Hnow Hnd].
      destruct (rotated_fill ps T now w Hrot)
        as (w1 & ps1 & d & Hfill & Hd & Hcat & Hne1 & Hrot1 & Hps1);
        [by rewrite Hcl|by rewrite Hcl|done|done|done|].
      destruct (IH w1 ps1 (T ++ d) Hrot1 Hne1) as (w' & ps' & Hloop & Hend & Hrot').
      * pose proof (f_equal length Hcat) as Hl.
        rewrite Hcl, length_app in Hl.
        assert (0 < length d)%nat by (destruct d; [done|cbn; lia]).
        cbn [length] in Hlen. lia.
      * done.
      * apply Forall_forall. intros c Hc.
        rewrite Forall_forall in Hclk. destruct (Hclk c Hc) as (? & ? & Hcps).
        split; [done|]. split; [done|].
        destruct Hps1 as [->| ->]; [done|].
        intros Hin. apply elem_of_app in Hin as [Hin|Hin]; [done|].
        apply list_elem_of_singleton in Hin. apply Hnow. rewrite <- Hin.
        by apply list_elem_of_fmap_2.
      * exists w', ps'. split; [|split; [done|]].
        -- destruct w as [r files cl]. cbn [client] in Hcl. subst cl.
           cbn [main_loop client]. unfold_M.
           by rewrite Hfill.
        -- rewrite <- Hcl, <- Hcat, app_assoc. done.
Qed.

Lemma rotated_start (segs : list bytes) :
  rotated F files0 [] [] (start F files0 segs).
Proof.
  split; [|by intros [? [=]]].
  repeat split; cbn; try done; [apply NoDup_nil_2|].
  intros p Hp. by apply elem_of_nil in Hp.
Qed.

End Rotation.

Lemma fill_exhausted_iff (now : clock) (w w' : world) :
  fill now w = (Ok tt, w') ->
  (current_path (self w') = None <-> res (self w') <= 0).
Proof.
  assert (forall r0 files1 p,
    fill_initialization now w = (Ok tt, World r0 files1 (client w)) ->
    current_path r0 = Some p -> fill now w = (Ok tt, w') ->
    (current_path (self w') = None <-> res (self w') <= 0)) as Hbody.
  { intros r0 files1 p Hinit Hp Hfill.
    destruct (Z.le_gt_cases 0 (res r0)) as [Hres|Hres].
    - destruct (fill_after_initialization now w r0 files1 p Hinit Hp Hres)
        as (r' & Hfill' & _ & _ & Hres' & Hcur').
      rewrite Hfill' in Hfill. injection Hfill as <-. cbn [self].
      rewrite Hcur', Hres'.
      destruct (Z.leb_spec (res r0 - Z.of_nat (length (fst (take_seg
        (Z.to_nat (recv_num (res r0))) (client w))))) 0); split; try done; lia.
    - unfold fill, mbind, M_bind, bind in Hfill.
      rewrite Hinit, fill_body_eq in Hfill.
      destruct (Z.ltb_spec (recv_num (res r0)) 0) as [_|Hge]; [done|].
      rewrite recv_num_min in Hge. unfold RECV_BUFLEN in Hge. lia. }
  intros Hfill. destruct w as [r files segs]. cbn [client] in Hbody.
  pose proof (fill_initialization_eq now r files segs) as Hinit.
  destruct (current_path r) as [p|] eqn:Hp; [by eapply Hbody|].
  cbv zeta in Hinit.
  destruct (files !! dated_path now);
    [unfold fill, mbind, M_bind, bind in Hfill; by rewrite Hinit in Hfill|].
  destruct (build_header _ _ _ _);
    [by eapply Hbody|
     unfold fill, mbind, M_bind, bind in Hfill; by rewrite Hinit in Hfill..].
Qed.

(** A call of [fill] without a current file opens the dated file and
    writes its header before it receives anything: the file is there
    whatever [recv] then yields, be it nothing. *)
Lemma fill_opens (now : clock) (w : world) :
  current_path (self w) = None -> fs w !! dated_path now = None ->
  clock_ok now -> 0 <= file_len (self w) ->
  exists w', fill now w = (Ok tt, w') /\
    fs w' !! dated_path now =
    Some (header_of now ++
          fst (take_seg (Z.to_nat (recv_num (file_len (self w) * 15))) (client w))).
Proof.
  intros Hidle Hfree Hok HF. destruct w as [r files segs].
  cbn [self fs client] in *.
  pose proof (fill_initialization_eq now r files segs) as Hinit.
  rewrite Hidle in Hinit. cbv zeta in Hinit.
  rewrite Hfree, (build_header_now now Hok) in Hinit.
  destruct (fill_after_initialization now _ _ _ (dated_path now) Hinit)
    as (r' & Hfill & _); [done|cbn; lia|].
  eexists. split; [exact Hfill|]. cbn [fs client res set_res].
  by rewrite !lookup_insert_eq.
Qed.

(** C7, as amended. A successful call of [fill] leaves no current file
    exactly when the remaining capacity is [<= 0], and a call without a
    current file opens the dated file and writes its header before it
    receives anything.  Let [fill] be called while bytes of the stream are
    still to come, every [recv] yielding at least one byte, with readable
    clocks and fresh, distinct dated paths.  Then the calls succeed, and
    when the last byte has been received the capture has made the files
    [ps], file [j] holding a 256-byte header and the bytes of the stream
    from [j * F * 15] up to [(j + 1) * F * 15]; nothing else has changed.
    For a stream of exactly [k * F] records there are exactly [k] files,
    each with exactly [F] records after its header, and no current file.
    For a stream of [F + 1] records there are exactly two files: the first
    with the first [F] records after its header, the second with its header
    and the one record beyond the capacity of the first. *)
Theorem rotation_boundary (F : Z) (files : gmap string bytes)
    (segs : list bytes) (clk : list clock) :
  0 < F ->
  Forall (fun seg => seg <> []) segs ->
  NoDup (dated_path <$> clk) ->
  Forall (fun now => clock_ok now /\ files !! dated_path now = None) clk ->
  (length (concat segs) <= length clk)%nat ->
  let N := Z.to_nat (F * 15) in
  let stream := concat segs in
  (forall now w w', fill now w = (Ok tt, w') ->
     (current_path (self w') = None <-> res (self w') <= 0)) /\
  (forall now w, current_path (self w) = None ->
     fs w !! dated_path now = None -> clock_ok now -> 0 <= file_len (self w) ->
     exists w' data, fill now w = (Ok tt, w') /\
       fs w' !! dated_path now = Some (header_of now ++ data)) /\
  exists w ps,
    main_loop clk (start F files segs) = (Ok tt, w) /\
    NoDup ps /\
    (forall p, p ∈ ps -> files !! p = None) /\
    (forall p, p ∉ ps -> fs w !! p = files !! p) /\
    (forall j p, ps !! j = Some p ->
       exists hdr, length hdr = 256%nat /\
         fs w !! p = Some (hdr ++ slice (j * N) ((j + 1) * N) stream)) /\
    (forall k, length stream = (k * N)%nat ->
       length ps = k /\ current_path (self w) = None /\
       Forall (fun p => exists hdr body,
                 fs w !! p = Some (hdr ++ body) /\
                 length hdr = 256%nat /\ length body = N) ps) /\
    (length stream = (N + 15)%nat ->
       exists p1 p2 h1 h2,
         ps = [p1; p2] /\ length h1 = 256%nat /\ length h2 = 256%nat /\
         fs w !! p1 = Some (h1 ++ take N stream) /\
         fs w !! p2 = Some (h2 ++ drop N stream) /\
         length (drop N stream) = 15%nat).
Proof.
  intros HF Hne Hnd Hclk Hlen N stream.
  split; [exact fill_exhausted_iff|]. split.
  { intros now w Hidle Hfree Hok Hfl.
    destruct (fill_opens now w Hidle Hfree Hok Hfl) as (w' & Hfill & Hfile).
    by exists w', (fst (take_seg (Z.to_nat (recv_num (file_len (self w) * 15)))
                     (client w))). }
  destruct (main_loop_rotated F files HF clk (start F files segs) [] []
              (rotated_start F files segs)) as (w & ps & Hloop & _ & Hrot);
    [done|done|done| |].
  { eapply Forall_impl; [exact Hclk|]. intros now [? ?].
    split; [done|]. split; [done|]. apply not_elem_of_nil. }
  cbn [client start app] in Hrot. fold stream in Hrot.
  destruct Hrot as [(Hfl & Hndps & Hnew & Hold & Hfile & Hcur) Hstrict].
  fold N in Hfile, Hcur, Hstrict.
  assert (15 <= N)%nat as HN by (subst N; lia).
  exists w, ps. split; [exact Hloop|]. split; [exact Hndps|].
  split; [exact Hnew|]. split; [exact Hold|]. split; [exact Hfile|]. split.
  - intros k Hk.
    assert (length ps = k /\ current_path (self w) = None) as [Hps Hidle].
    { destruct (current_path (self w)) as [p|].
      - destruct Hcur as (j & _ & Hj & Hb & _).
        assert ((length ps - 1) * N < length stream)%nat as Hs
          by (apply Hstrict; by eexists).
        rewrite Hj in Hs. replace (S j - 1)%nat with j in Hs by lia.
        exfalso. assert (j < k)%nat by nia. assert (k < j + 1)%nat by nia. lia.
      - split; [nia|done]. }
    split; [exact Hps|]. split; [exact Hidle|].
    apply Forall_forall. intros p Hp.
    apply list_elem_of_lookup in Hp as [j Hj].
    destruct (Hfile j p Hj) as (hdr & Hhdr & Hc).
    exists hdr, (slice (j * N) ((j + 1) * N) stream).
    split; [exact Hc|]. split; [exact Hhdr|].
    apply lookup_lt_Some in Hj. rewrite length_slice by nia. lia.
  - intros Hk.
    assert (length ps = 2%nat) as Hps.
    { destruct (current_path (self w)) as [p|].
      - destruct Hcur as (j & _ & Hj & Hb & _).
        assert ((length ps - 1) * N < length stream)%nat as Hs
          by (apply Hstrict; by eexists).
        rewrite Hj in Hs. replace (S j - 1)%nat with j in Hs by lia.
        assert (0 < j)%nat by nia. assert (j < 2)%nat by nia. lia.
      - assert (0 < length ps - 1)%nat by nia.
        assert (length ps - 1 < 2)%nat by nia. lia. }
    destruct ps as [|p1 [|p2 [|p3 ps]]]; cbn [length] in Hps; try lia.
    destruct (Hfile 0%nat p1 eq_refl) as (h1 & Hh1 & Hc1).
    destruct (Hfile 1%nat p2 eq_refl) as (h2 & Hh2 & Hc2).
    exists p1, p2, h1, h2. split; [done|]. split; [done|]. split; [done|].
    assert (length (drop N stream) = 15%nat) as Hdrop
      by (rewrite length_drop; lia).
    unfold slice in Hc1, Hc2. cbn [Nat.mul Nat.add] in Hc1, Hc2.
    rewrite Nat.add_0_r, Nat.sub_0_r in Hc1. cbn [drop] in Hc1.
    rewrite Nat.add_0_r in Hc2.
    replace (N + N - N)%nat with N in Hc2 by lia.
    rewrite (take_ge (drop N stream)) in Hc2 by lia.
    done.
Qed.

(** One record per file and a stream of two records in two segments. *)
Lemma rotation_boundary_witness :
  let clk := sample_clock <$> seq 0 30 in
  let segs := [take 7 enc1; drop 7 enc1 ++ enc0] in
  0 < 1 /\
  Forall (fun seg : bytes => seg <> []) segs /\
  NoDup (dated_path <$> clk) /\
  Forall (fun now => clock_ok now /\
                     (∅ : gmap string bytes) !! dated_path now = None) clk /\
  (length (concat segs) <= length clk)%nat /\
  exists (w : world) (ps : list string),
    main_loop clk (start 1 ∅ segs) = (Ok tt, w) /\
    length ps = 2%nat /\ current_path (self w) = None.
Proof.
  intros clk segs.
  assert (0 < 1) as HF by lia.
  assert (Forall (fun seg : bytes => seg <> []) segs) as Hne
    by (repeat constructor; done).
  assert (NoDup (dated_path <$> clk)) as Hnd
    by (apply (bool_decide_unpack _); vm_compute; exact I).
  assert (Forall (fun now => clock_ok now /\
                    (∅ : gmap string bytes) !! dated_path now = None) clk)
    as Hclk
    by (repeat (constructor; [split; [unfold clock_ok; cbn; lia|reflexivity]|]);
        constructor).
  assert (length (concat segs) <= length clk)%nat as Hlen by (cbn; lia).
  repeat (split; [assumption|]).
  destruct (rotation_boundary 1 ∅ segs clk HF Hne Hnd Hclk Hlen)
    as (_ & _ & w & ps & Hloop & _ & _ & _ & _ & Hk & _).
  exists w, ps. split; [exact Hloop|].
  destruct (Hk 2%nat eq_refl) as (Hps & Hidle & _). split; [exact Hps|exact Hidle].
Defined.

(** C7 as stated fails when [fill] is called once more than the stream
    has bytes for: with one record per file and a peer that sends exactly
    one record and closes, the second call opens a second file, which holds
    its header and nothing else. *)
Lemma extra_fill_opens_a_file :
  length (concat [enc0]) = (1 * Z.to_nat (1 * 15))%nat /\
  fst (fills [clock_a; clock_b] (start 1 ∅ [enc0])) = Ok tt /\
  fs (snd (fills [clock_a; clock_b] (start 1 ∅ [enc0]))) =
    <[dated_path clock_b := header_of clock_b]>
      {[dated_path clock_a := header_of clock_a ++ enc0]} /\
  size (fs (snd (fills [clock_a; clock_b] (start 1 ∅ [enc0])))) = 2%nat.
Proof. repeat split; vm_compute; reflexivity. Qed.

(** One record per file, one record sent, [fill] called twice. *)
Lemma fill_capacity_witness :
  0 <= 1 /\
  0 <= res (self (snd (fills [clock_a; clock_b] (start 1 ∅ [enc0])))) /\
  (forall path content, (∅ : gmap string bytes) !! path = None ->
     fs (snd (fills [clock_a; clock_b] (start 1 ∅ [enc0]))) !! path
       = Some content ->
     Z.of_nat (length (drop 256 content)) <= 1 * 15).
Proof.
  assert (0 <= 1) as HF by lia. split; [exact HF|].
  destruct (fill_capacity 1 ∅ [enc0] [clock_a; clock_b] HF) as (_ & Hres & Hfiles).
  split; [exact Hres|exact Hfiles].
Defined.

(** * Further properties *)

(** ** Little-endian integers *)

Lemma byte_val_bound (b : byte) : 0 <= byte_val b < 256.
Proof. unfold byte_val. pose proof (Byte.to_N_bounded b). lia. Qed.

Lemma from_bytes_le_bound (b : bytes) :
  0 <= from_bytes_le b < 256 ^ Z.of_nat (length b).
Proof.
  induction b as [|x b IH]; [cbn; lia|].
  cbn [from_bytes_le length]. rewrite Nat2Z.inj_succ, Z.pow_succ_r by lia.
  pose proof (byte_val_bound x). lia.
Qed.

Lemma from_bytes_le_app (a b : bytes) :
  from_bytes_le (a ++ b)
  = from_bytes_le a + 256 ^ Z.of_nat (length a) * from_bytes_le b.
Proof.
  induction a as [|x a IH]; [cbn [app from_bytes_le length]; lia|].
  cbn [app from_bytes_le length]. rewrite IH, Nat2Z.inj_succ, Z.pow_succ_r by lia.
  lia.
Qed.

Lemma from_bytes_le_digits4 (z : Z) :
  0 <= z < 2 ^ 32 -> from_bytes_le (le_digits 4 z) = z.
Proof.
  intros Hz. rewrite from_bytes_le_digits by lia.
  apply Z.mod_small. change (256 ^ Z.of_nat 4) with (2 ^ 32). lia.
Qed.

Lemma to_bytes4_inv (z : Z) (b : bytes) :
  to_bytes4 z = Ok b -> 0 <= z < 2 ^ 32 /\ b = le_digits 4 z.
Proof.
  unfold to_bytes4. destruct (Z.leb_spec 0 z); cbn [andb]; [|done].
  destruct (Z.ltb_spec z (2 ^ 32)); [|done]. intros [= <-]. split; [lia|done].
Qed.

(** X1. The header of a file reads back: when [_write_header] returns, the
    file is 256 bytes long, starts with the tag ["256\n"], and its next three
    4-byte fields are the little-endian values of the version, of the seconds
    and of the microseconds of the clock; the fixed text follows and the rest
    is spaces.  (So a success also tells that the clock fits the fields.) *)
Theorem write_header_reads_back (path : string) (now : clock) (w w' : world) :
  _write_header path now w = (Ok tt, w') ->
  exists content,
    fs w' !! path = Some content /\
    length content = 256%nat /\
    take 4 content = txt "256" ++ [nl] /\
    from_bytes_le (slice 4 8 content) = VERSION /\
    from_bytes_le (slice 8 12 content) = utime_int now /\
    from_bytes_le (slice 12 16 content) = utime_us now /\
    slice 16 220 content = HEADER_TXT /\
    drop 220 content = replicate 36 x20 /\
    self w' = self w /\ client w' = client w /\
    (forall q, q <> path -> fs w' !! q = fs w !! q).
Proof.
  intros Hw.
  assert (clock_ok now) as Hok.
  { revert Hw. unfold_header. unfold build_header.
    destruct (to_bytes4 VERSION) as [v| |]; cbn [obind]; [|done..].
    destruct (to_bytes4 (utime_int now)) as [s| |] eqn:Hs; cbn [obind]; [|done..].
    destruct (to_bytes4 (utime_us now)) as [u| |] eqn:Hu; cbn [obind]; [|done..].
    intros _. apply to_bytes4_inv in Hs as [? _]. apply to_bytes4_inv in Hu as [? _].
    by split. }
  rewrite (write_header_ok path now w Hok) in Hw. injection Hw as <-.
  destruct Hok as [Hs Hu].
  exists (header_of now). cbn [self fs client]. rewrite lookup_insert_eq.
  split; [done|]. split; [apply length_header_of|].
  assert (forall x, length (le_digits 4 x) = 4%nat) as H4
    by (intros; apply length_le_digits).
  assert (header_of now =
          (txt "256" ++ [nl]) ++ le_digits 4 VERSION ++ le_digits 4 (utime_int now)
          ++ le_digits 4 (utime_us now) ++ HEADER_TXT ++ replicate 36 x20) as Hh
    by (unfold header_of; by rewrite <- app_assoc).
  split. { rewrite Hh. by rewrite take_app_length' by reflexivity. }
  split.
  { rewrite Hh. unfold slice. rewrite drop_app_length' by reflexivity.
    rewrite take_app_length' by (by rewrite H4).
    apply from_bytes_le_digits4, VERSION_fits. }
  split.
  { rewrite Hh. unfold slice.
    rewrite (app_assoc _ (le_digits 4 VERSION)).
    rewrite drop_app_length' by (rewrite length_app, H4; reflexivity).
    rewrite take_app_length' by (by rewrite H4).
    by apply from_bytes_le_digits4. }
  split.
  { rewrite Hh. unfold slice.
    rewrite (app_assoc _ (le_digits 4 VERSION)).
    rewrite (app_assoc _ (le_digits 4 (utime_int now))).
    rewrite drop_app_length' by (rewrite !length_app, !H4; reflexivity).
    rewrite take_app_length' by (by rewrite H4).
    by apply from_bytes_le_digits4. }
  split.
  { rewrite Hh. unfold slice.
    rewrite (app_assoc _ (le_digits 4 VERSION)).
    rewrite (app_assoc _ (le_digits 4 (utime_int now))).
    rewrite (app_assoc _ (le_digits 4 (utime_us now))).
    rewrite drop_app_length' by (rewrite !length_app, !H4; reflexivity).
    by rewrite take_app_length' by (by rewrite HEADER_TXT_length). }
  split.
  { rewrite Hh.
    rewrite (app_assoc _ (le_digits 4 VERSION)).
    rewrite (app_assoc _ (le_digits 4 (utime_int now))).
    rewrite (app_assoc _ (le_digits 4 (utime_us now))).
    rewrite (app_assoc _ HEADER_TXT).
    by rewrite drop_app_length'
      by (rewrite !length_app, !H4, HEADER_TXT_length; reflexivity). }
  split; [done|]. split; [done|].
  intros q Hq. by rewrite lookup_insert_ne.
Qed.

(** A header written at [clock_a]. *)
Lemma write_header_reads_back_witness :
  _write_header "el.dat" clock_a (World (init FILE_LEN) ∅ [])
    = (Ok tt, World (init FILE_LEN) {["el.dat" := header_of clock_a]} []) /\
  from_bytes_le (slice 8 12 (header_of clock_a)) = 1700000000.
Proof.
  assert (_write_header "el.dat" clock_a (World (init FILE_LEN) ∅ [])
    = (Ok tt, World (init FILE_LEN) {["el.dat" := header_of clock_a]} []))
    as Hw by (vm_compute; reflexivity).
  split; [exact Hw|].
  destruct (write_header_reads_back _ _ _ _ Hw)
    as (content & Hc & _ & _ & _ & Hsec & _).
  cbn [fs] in Hc. rewrite lookup_singleton_eq in Hc. injection Hc as <-.
  exact Hsec.
Defined.

(** ** The analyzer on whole packets *)

Lemma decode_eq (packet : bytes) (r : reader) :
  length packet = 15%nat ->
  decode packet r =
  Ok (if Byte.eqb (default x00 (packet !! 0%nat)) x99
         && Byte.eqb (default x00 (packet !! 14%nat)) x66
      then set_latest (from_bytes_le (slice 1 9 packet))
                      (from_bytes_le (slice 9 13 packet)) r
      else r).
Proof.
  intros Hlen. do 15 (destruct packet as [|? packet]; [done|]).
  destruct packet; [|done].
  unfold decode, index. cbn [lookup list_lookup obind from_option id].
  rewrite byte_val_x99, byte_val_x66.
  destruct (_ && _); [|done]. f_equal. f_equal.
  change (slice 1 9 ?l) with (slice 1 5 l ++ slice 5 9 l).
  rewrite from_bytes_le_app, Z.shiftl_mul_pow2 by lia.
  change (length (slice 1 5 ?l)) with 4%nat. change (256 ^ Z.of_nat 4) with (2 ^ 32).
  lia.
Qed.

(** X2. For a packet of 15 bytes with header 0x99 and footer 0x66 the
    timestamp the reader takes is the unsigned little-endian integer of the
    8 bytes 1 to 8, so it lies in [0, 2^64); the state is the unsigned
    little-endian integer of bytes 9 to 12 and lies in [0, 2^32).  Byte 13 is
    not read, and nothing else of the reader changes. *)
Theorem decode_timestamp_64 (packet : bytes) (r : reader) :
  length packet = 15%nat ->
  packet !! 0%nat = Some x99 -> packet !! 14%nat = Some x66 ->
  exists r',
    decode packet r = Ok r' /\
    ts_latest r' = from_bytes_le (slice 1 9 packet) /\
    0 <= ts_latest r' < 2 ^ 64 /\
    state_latest r' = from_bytes_le (slice 9 13 packet) /\
    0 <= state_latest r' < 2 ^ 32 /\
    same_session r r' /\ carry_over r' = carry_over r.
Proof.
  intros Hlen Hh Hf. rewrite decode_eq, Hh, Hf by done. cbn [from_option id Byte.eqb andb].
  eexists. split; [reflexivity|]. cbn [ts_latest state_latest set_latest carry_over].
  split; [done|]. split.
  { pose proof (from_bytes_le_bound (slice 1 9 packet)) as Hb.
    rewrite length_slice in Hb by lia. exact Hb. }
  split; [done|]. split.
  { pose proof (from_bytes_le_bound (slice 9 13 packet)) as Hb.
    rewrite length_slice in Hb by lia. exact Hb. }
  by repeat split.
Qed.

(** [enc1]: the 8 bytes 01 00 .. 00 read as 1. *)
Lemma decode_timestamp_64_witness :
  length enc1 = 15%nat /\ enc1 !! 0%nat = Some x99 /\ enc1 !! 14%nat = Some x66 /\
  exists r', decode enc1 (init FILE_LEN) = Ok r' /\ ts_latest r' = 1.
Proof.
  assert (length enc1 = 15%nat) as Hlen by reflexivity.
  assert (enc1 !! 0%nat = Some x99) as Hh by reflexivity.
  assert (enc1 !! 14%nat = Some x66) as Hf by reflexivity.
  split; [exact Hlen|]. split; [exact Hh|]. split; [exact Hf|].
  destruct (decode_timestamp_64 enc1 (init FILE_LEN) Hlen Hh Hf)
    as (r' & Hd & Hts & _).
  exists r'. split; [exact Hd|]. rewrite Hts. reflexivity.
Defined.

Lemma decode_in_range (packet : bytes) (r : reader) :
  length packet = 15%nat ->
  0 <= ts_latest r < 2 ^ 64 -> 0 <= state_latest r < 2 ^ 32 ->
  exists r', decode packet r = Ok r' /\
    0 <= ts_latest r' < 2 ^ 64 /\ 0 <= state_latest r' < 2 ^ 32.
Proof.
  intros Hlen Hts Hst. rewrite decode_eq by done. eexists. split; [reflexivity|].
  destruct (_ && _); [|done]. cbn [ts_latest state_latest set_latest].
  pose proof (from_bytes_le_bound (slice 1 9 packet)) as Hb1.
  pose proof (from_bytes_le_bound (slice 9 13 packet)) as Hb2.
  rewrite length_slice in Hb1, Hb2 by lia. done.
Qed.

Lemma decode_all_in_range (ps : list bytes) :
  Forall (fun packet => length packet = 15%nat) ps ->
  forall r, 0 <= ts_latest r < 2 ^ 64 -> 0 <= state_latest r < 2 ^ 32 ->
  exists r', decode_all ps r = Ok r' /\
    0 <= ts_latest r' < 2 ^ 64 /\ 0 <= state_latest r' < 2 ^ 32.
Proof.
  induction 1 as [|packet ps Hp _ IH]; intros r Hts Hst.
  - by exists r.
  - destruct (decode_in_range packet r Hp Hts Hst) as (r1 & Hd & Hts1 & Hst1).
    destruct (IH r1 Hts1 Hst1) as (r2 & Hd2 & ?). exists r2.
    cbn [decode_all]. rewrite Hd. done.
Qed.

(** X3. Whatever chunks the analyzer is given, it never raises, and the
    latest timestamp and state of a reader that starts as [__init__] leaves
    it stay unsigned 64-bit and 32-bit values. *)
Theorem latest_in_range (chunks : list bytes) (file_len : Z) :
  exists r',
    analyzer_chunks chunks (init file_len) = Ok r' /\
    0 <= ts_latest r' < 2 ^ 64 /\ 0 <= state_latest r' < 2 ^ 32.
Proof.
  assert (forall r, 0 <= ts_latest r < 2 ^ 64 -> 0 <= state_latest r < 2 ^ 32 ->
          exists r', analyzer_chunks chunks r = Ok r' /\
            0 <= ts_latest r' < 2 ^ 64 /\ 0 <= state_latest r' < 2 ^ 32) as H.
  { induction chunks as [|data chunks IH]; intros r Hts Hst; [by exists r|].
    cbn [analyzer_chunks]. unfold analyzer, absorb.
    destruct (decode_all_in_range (packets (carry_over r ++ data))
                (packets_size _)
                (set_carry_over (drop (length (carry_over r ++ data) mod 15)
                                   (carry_over r ++ data)) r) Hts Hst)
      as (r1 & Hd & Hts1 & Hst1).
    rewrite Hd. cbn [obind]. by apply IH. }
  apply H; cbn; lia.
Qed.

(** ** The analyzer on chunks that are whole packets *)

Lemma slice_app_r (lo hi : nat) (b d : bytes) :
  (length b <= lo)%nat ->
  slice lo hi (b ++ d) = slice (lo - length b) (hi - length b) d.
Proof.
  intros Hlo. unfold slice. rewrite drop_app_ge by done. f_equal. lia.
Qed.

Lemma packets_app_aligned (X Y : bytes) :
  (length X mod 15 = 0)%nat -> packets (X ++ Y) = packets X ++ packets Y.
Proof.
  intros HX.
  pose proof (Nat.div_mod_eq (length X) 15) as HXd.
  assert (length (X ++ Y) / 15 = length X / 15 + length Y / 15)%nat as Hdiv.
  { rewrite length_app.
    replace (length X + length Y)%nat
      with (length Y + (length X / 15) * 15)%nat by lia.
    rewrite Nat.div_add by done. lia. }
  apply list_eq. intros i.
  destruct (decide (i < length X / 15)%nat) as [Hi|Hi].
  - rewrite lookup_app_l by (by rewrite packets_length).
    rewrite !packets_lookup by lia. f_equal. apply slice_app_l. lia.
  - rewrite lookup_app_r by (rewrite packets_length; lia).
    rewrite packets_length.
    destruct (decide (i < length X / 15 + length Y / 15)%nat) as [Hi'|Hi'].
    + rewrite !packets_lookup by lia. f_equal.
      rewrite slice_app_r by lia. f_equal; lia.
    + rewrite !lookup_ge_None_2; [done|rewrite packets_length; lia..].
Qed.

Lemma packets_one (P : bytes) : length P = 15%nat -> packets P = [P].
Proof. intros HP. pose proof (absorb_one P HP) as H. by injection H. Qed.

Lemma decode_all_app (ps qs : list bytes) (r : reader) :
  decode_all (ps ++ qs) r = obind (decode_all ps r) (decode_all qs).
Proof.
  revert r. induction ps as [|p ps IH]; intros r; [done|].
  cbn [app decode_all]. destruct (decode p r); cbn [obind]; [apply IH|done..].
Qed.

Lemma analyzer_chunks_app (cs ds : list bytes) (r : reader) :
  analyzer_chunks (cs ++ ds) r = obind (analyzer_chunks cs r) (analyzer_chunks ds).
Proof.
  revert r. induction cs as [|c cs IH]; intros r; [done|].
  cbn [app analyzer_chunks]. destruct (analyzer c r); cbn [obind]; [apply IH|done..].
Qed.

Lemma analyzer_aligned (data : bytes) (r : reader) :
  (length (carry_over r) mod 15 = 0)%nat -> (length data mod 15 = 0)%nat ->
  exists r', analyzer data r = Ok r' /\ same_session r r' /\
    carry_over r' = carry_over r ++ data.
Proof.
  intros Hc Hd. destruct (analyzer_ok data r) as (r' & Ha & Hs & Hco).
  exists r'. split; [done|]. split; [done|]. rewrite Hco. unfold absorb. cbn [snd].
  rewrite length_app, Nat.Div0.add_mod, Hc, Hd by done. done.
Qed.

Lemma analyzer_chunks_aligned (chunks : list bytes) (r : reader) :
  (length (carry_over r) mod 15 = 0)%nat ->
  Forall (fun data => length data mod 15 = 0)%nat chunks ->
  exists r',
    analyzer_chunks chunks r = Ok r' /\
    carry_over r' = carry_over r ++ concat chunks /\
    same_session r r'.
Proof.
  intros Hc Hall. revert r Hc.
  induction Hall as [|data chunks Hd _ IH]; intros r Hc.
  - exists r. cbn. rewrite app_nil_r. by repeat split.
  - destruct (analyzer_aligned data r Hc Hd) as (r1 & Ha & (?&?&?&?) & Hco).
    destruct (IH r1) as (r2 & Hcs & Hco2 & (?&?&?&?)).
    { rewrite Hco, length_app, Nat.Div0.add_mod, Hc, Hd by done. done. }
    exists r2. cbn [analyzer_chunks concat]. rewrite Ha. cbn [obind].
    split; [done|]. split; [by rewrite Hco2, Hco, app_assoc|].
    repeat split; congruence.
Qed.

(** X4. When the carry-over and every chunk are a whole number of
    packets, nothing is ever dropped from the carry-over: after the calls it
    is the old carry-over followed by all the chunks, so it grows with every
    byte received and each call cuts its packets from the whole stream
    again. *)
Theorem carry_over_accumulates (chunks : list bytes) (r : reader) :
  (length (carry_over r) mod 15 = 0)%nat ->
  Forall (fun data => length data mod 15 = 0)%nat chunks ->
  exists r',
    analyzer_chunks chunks r = Ok r' /\
    carry_over r' = carry_over r ++ concat chunks /\
    length (carry_over r') = (length (carry_over r) + length (concat chunks))%nat /\
    (forall data,
       fst (absorb (carry_over r') data)
       = packets (carry_over r ++ concat chunks ++ data)) /\
    same_session r r'.
Proof.
  intros Hc Hall.
  destruct (analyzer_chunks_aligned chunks r Hc Hall) as (r' & Ha & Hco & Hs).
  exists r'. split; [done|]. split; [done|].
  split; [by rewrite Hco, length_app|]. split; [|done].
  intros data. unfold absorb. cbn [fst]. by rewrite Hco, app_assoc.
Qed.

(** Two whole packets in two calls: both are kept. *)
Lemma carry_over_accumulates_witness :
  (length (carry_over (init FILE_LEN)) mod 15 = 0)%nat /\
  Forall (fun data : bytes => length data mod 15 = 0)%nat [enc0; enc1] /\
  exists r', analyzer_chunks [enc0; enc1] (init FILE_LEN) = Ok r' /\
             carry_over r' = enc0 ++ enc1.
Proof.
  assert (length (carry_over (init FILE_LEN)) mod 15 = 0)%nat as Hc by reflexivity.
  assert (Forall (fun data : bytes => length data mod 15 = 0)%nat [enc0; enc1])
    as Hall by (repeat constructor).
  split; [exact Hc|]. split; [exact Hall|].
  destruct (carry_over_accumulates [enc0; enc1] (init FILE_LEN) Hc Hall)
    as (r' & Ha & Hco & _).
  exists r'. split; [exact Ha|]. rewrite Hco. reflexivity.
Defined.

(** X5. When the carry-over and every chunk are a whole number of packets
    and the bytes received so far end with a packet of header 0x99 and footer
    0x66, then after the calls the latest timestamp and state are those of
    that last packet. *)
Theorem latest_on_aligned (chunks : list bytes) (data : bytes) (r : reader)
    (X P : bytes) :
  (length (carry_over r) mod 15 = 0)%nat ->
  Forall (fun data => length data mod 15 = 0)%nat (chunks ++ [data]) ->
  carry_over r ++ concat (chunks ++ [data]) = X ++ P ->
  length P = 15%nat -> P !! 0%nat = Some x99 -> P !! 14%nat = Some x66 ->
  exists r',
    analyzer_chunks (chunks ++ [data]) r = Ok r' /\
    ts_latest r' = from_bytes_le (slice 1 9 P) /\
    state_latest r' = from_bytes_le (slice 9 13 P).
Proof.
  intros Hc Hall Hcat HP Hh Hf.
  apply Forall_app in Hall as [Hchunks Hdata].
  rewrite Forall_singleton in Hdata.
  destruct (analyzer_chunks_aligned chunks r Hc Hchunks) as (r1 & Ha & Hco & _).
  rewrite analyzer_chunks_app, Ha. cbn [obind analyzer_chunks].
  assert (carry_over r1 ++ data = X ++ P) as Htmpd.
  { rewrite Hco, <- Hcat, concat_app. cbn [concat]. by rewrite app_nil_r, app_assoc. }
  assert (length X mod 15 = 0)%nat as HX.
  { pose proof (f_equal length Htmpd) as Hl.
    rewrite !length_app, Hco, length_app, HP in Hl.
    assert (length (concat chunks) mod 15 = 0)%nat as Hcc.
    { clear -Hchunks. induction Hchunks as [|c cs Hcl _ IH]; [done|].
      cbn [concat]. rewrite length_app, Nat.Div0.add_mod, Hcl, IH by done. done. }
    pose proof (Nat.div_mod_eq (length (carry_over r)) 15).
    pose proof (Nat.div_mod_eq (length (concat chunks)) 15).
    pose proof (Nat.div_mod_eq (length data) 15).
    pose proof (Nat.div_mod_eq (length X) 15).
    pose proof (Nat.mod_upper_bound (length X) 15). lia. }
  unfold analyzer, absorb. rewrite Htmpd.
  rewrite (packets_app_aligned X P HX), (packets_one P HP).
  rewrite decode_all_app.
  destruct (decode_all_ok (packets X)
              (set_carry_over (drop (length (X ++ P) mod 15) (X ++ P)) r1)
              (packets_size X)) as (r2 & Hd & _).
  rewrite Hd. cbn [obind decode_all].
  rewrite decode_eq, Hh, Hf by done. cbn [from_option id Byte.eqb andb].
  eexists. split; [reflexivity|]. done.
Qed.

(** [enc0] then [enc1], each in a chunk of its own: the latest is 1. *)
Lemma latest_on_aligned_witness :
  exists r', analyzer_chunks ([enc0] ++ [enc1]) (init FILE_LEN) = Ok r' /\
             ts_latest r' = 1.
Proof.
  destruct (latest_on_aligned [enc0] enc1 (init FILE_LEN) enc0 enc1)
    as (r' & Ha & Hts & _);
    [reflexivity|repeat constructor|reflexivity|reflexivity|reflexivity
    |reflexivity|].
  exists r'. split; [exact Ha|]. rewrite Hts. reflexivity.
Defined.

(** ** Bulk capture: the edges *)

Lemma get_write_connected (fuel : nat) (data_num : Z) (path : option string)
    (now : clock) (w : world) :
  connected (self w) = true -> clock_ok now ->
  let target := match path with Some p => p | None => local_path now end in
  get_write fuel data_num path now w =
  get_write_loop fuel target (15 * data_num)
    (World (self w) (<[target := []]> (fs w)) (client w)).
Proof.
  intros Hc Hok target. unfold get_write, get_self. unfold_M. cbn [self].
  rewrite Hc. cbn [negb]. rewrite write_header_ok by done.
  unfold open_wb at 1. cbn [self fs client]. by rewrite insert_insert_eq.
Qed.

Lemma get_write_loop_stalls (path : string) (fuel : nat) :
  forall (rest : Z) (w : world),
  Z.of_nat (length (concat (client w))) < rest ->
  fst (get_write_loop fuel path rest w) = OutOfFuel.
Proof.
  induction fuel as [|fuel IH]; intros rest w Hshort; cbn [get_write_loop];
    (destruct (Z.gtb_spec rest 0) as [Hpos|Hneg]; [|lia]); [done|].
  unfold_M. rewrite recv_ok by (rewrite recv_num_min; unfold RECV_BUFLEN; lia).
  destruct (take_seg (Z.to_nat (recv_num rest)) (client w)) as [data segs] eqn:Hts.
  cbn [fst snd]. unfold write at 1. cbn [self fs client].
  apply IH. cbn [client].
  pose proof (take_seg_concat _ _ _ _ Hts) as Hcat.
  apply (f_equal length) in Hcat. rewrite length_app in Hcat. lia.
Qed.

(** X6. When the peer's stream ends before [15 * data_num] bytes have
    come, the loop of [get_write] never ends: [recv] yields [b''], [rest]
    stays above 0, and no number of iterations brings a return. *)
Theorem get_write_never_returns (data_num : Z) (path : option string)
    (now : clock) (w : world) :
  connected (self w) = true -> clock_ok now ->
  Z.of_nat (length (concat (client w))) < 15 * data_num ->
  forall fuel, fst (get_write fuel data_num path now w) = OutOfFuel.
Proof.
  intros Hc Hok Hshort fuel. rewrite get_write_connected by done.
  by apply get_write_loop_stalls.
Qed.

(** Two records asked for, one sent. *)
Lemma get_write_never_returns_witness :
  fst (get_write 1000 2 None clock_a (start FILE_LEN ∅ [enc0])) = OutOfFuel.
Proof.
  apply (get_write_never_returns 2 None clock_a (start FILE_LEN ∅ [enc0]));
    [reflexivity|unfold clock_ok; cbn; lia|cbn; lia].
Defined.

(** X7. Asked for no record, or for a negative number of records,
    [get_write] takes nothing from the socket and leaves the file empty: it
    holds no header, and what a file of that name held before is gone. *)
Theorem get_write_of_nothing (fuel : nat) (data_num : Z) (path : option string)
    (now : clock) (w : world) :
  connected (self w) = true -> clock_ok now -> data_num <= 0 ->
  let target := match path with Some p => p | None => local_path now end in
  get_write fuel data_num path now w =
  (Ok tt, World (self w) (<[target := []]> (fs w)) (client w)).
Proof.
  intros Hc Hok Hnum target. rewrite get_write_connected by done. fold target.
  destruct fuel; cbn [get_write_loop];
    (destruct (Z.gtb_spec (15 * data_num) 0); [lia|done]).
Qed.

(** No record asked for, over a file that held a record. *)
Lemma get_write_of_nothing_witness :
  get_write 0 0 (Some "el.dat") clock_a (start FILE_LEN {["el.dat" := enc1]} [enc0])
  = (Ok tt, start FILE_LEN {["el.dat" := []]} [enc0]).
Proof.
  rewrite (get_write_of_nothing 0 0 (Some "el.dat") clock_a
             (start FILE_LEN {["el.dat" := enc1]} [enc0]));
    [|reflexivity|unfold clock_ok; cbn; lia|lia].
  cbn [self fs client start]. by rewrite insert_singleton_eq.
Defined.

(** ** The loop of bulk captures *)

Lemma get_write_loop_nonempty (path : string) (fuel : nat) :
  forall (rest : Z) (w : world),
  Forall (fun seg => seg <> []) (client w) ->
  Forall (fun seg => seg <> []) (client (snd (get_write_loop fuel path rest w))).
Proof.
  induction fuel as [|fuel IH]; intros rest w Hne; cbn [get_write_loop];
    destruct (rest >? 0); try done.
  unfold_M. unfold recv. destruct (_ <? 0); [done|].
  destruct (take_seg _ _) as [data segs] eqn:Hts.
  unfold write at 1. apply IH. cbn [client]. by eapply take_seg_nonempty.
Qed.

Lemma get_write_block (fuel : nat) (data_num : Z) (path : option string)
    (now : clock) (w : world) :
  connected (self w) = true -> clock_ok now -> 0 <= data_num ->
  Forall (fun seg => seg <> []) (client w) ->
  15 * data_num <= Z.of_nat (length (concat (client w))) ->
  (Z.to_nat (15 * data_num) <= fuel)%nat ->
  let target := match path with Some p => p | None => local_path now end in
  exists w',
    get_write fuel data_num path now w = (Ok tt, w') /\
    self w' = self w /\
    fs w' = <[target := take (Z.to_nat (15 * data_num)) (concat (client w))]> (fs w) /\
    concat (client w') = drop (Z.to_nat (15 * data_num)) (concat (client w)) /\
    Forall (fun seg => seg <> []) (client w').
Proof.
  intros Hc Hok Hnum Hne Hlen Hfuel target.
  pose proof (get_write_loop_nonempty target fuel (15 * data_num)
                (World (self w) (<[target := []]> (fs w)) (client w)) Hne) as Hne'.
  rewrite get_write_connected by done. fold target.
  destruct (get_write_loop_ok fuel target (15 * data_num) (self w)
              (<[target := []]> (fs w)) (client w) [])
    as (segs' & Hloop & Hrem); [lia|done|done|done|apply lookup_insert_eq|].
  rewrite Hloop in Hne' |- *. cbn [snd client] in Hne'.
  eexists. split; [reflexivity|]. cbn [self fs client].
  by rewrite insert_insert_eq.
Qed.

Lemma slice_drop (lo hi n : nat) (b : bytes) :
  slice lo hi (drop n b) = slice (n + lo) (n + hi) b.
Proof. unfold slice. rewrite drop_drop. f_equal. lia. Qed.

Lemma loop_passes_dated (fuel : nat) (L : Z) :
  0 <= L -> (Z.to_nat (15 * L) <= fuel)%nat ->
  forall (clk : list clock) (w : world),
  connected (self w) = true ->
  Forall (fun seg => seg <> []) (client w) ->
  NoDup (dated_path <$> clk) ->
  Forall (fun now => clock_ok now /\ fs w !! dated_path now = None) clk ->
  (length clk * Z.to_nat (15 * L) <= length (concat (client w)))%nat ->
  exists w',
    loop_passes fuel L true clk w = (Ok tt, w') /\
    self w' = self w /\
    (forall j now, clk !! j = Some now ->
       fs w' !! dated_path now =
       Some (slice (j * Z.to_nat (15 * L)) ((j + 1) * Z.to_nat (15 * L))
               (concat (client w)))) /\
    (forall p, p ∉ dated_path <$> clk -> fs w' !! p = fs w !! p) /\
    concat (client w') = drop (length clk * Z.to_nat (15 * L)) (concat (client w)).
Proof.
  intros HL Hfuel. set (n := Z.to_nat (15 * L)).
  induction clk as [|now clk IH]; intros w Hc Hne Hnd Hclk Hlen.
  - exists w. cbn. split; [done|]. split; [done|]. split; [done|]. by split.
  - apply Forall_cons in Hclk as [[Hok Hfree] Hclk].
    cbn [fmap list_fmap] in Hnd. apply NoDup_cons in Hnd as [Hnow Hnd].
    cbn [length] in Hlen.
    destruct (get_write_block fuel L (Some (dated_path now)) now w)
      as (w1 & Hgw & Hself & Hfs & Hrem & Hne1); [done|done|done|done|lia|done|].
    fold n in Hfs, Hrem.
    destruct (IH w1) as (w' & Hloop & Hself' & Hfiles & Hother & Hrem').
    { by rewrite Hself. }
    { done. }
    { done. }
    { apply Forall_forall. intros c Hcin. rewrite Forall_forall in Hclk.
      destruct (Hclk c Hcin) as [? Hcfree]. split; [done|].
      rewrite Hfs, lookup_insert_ne; [done|].
      intros Heq. apply Hnow. rewrite Heq. by apply list_elem_of_fmap_2. }
    { rewrite Hrem, length_drop. lia. }
    exists w'. split.
    { cbn [loop_passes]. unfold_M. unfold loop_pass. unfold_M.
      unfold path_creator at 1. rewrite Hfree, Hgw. exact Hloop. }
    split; [congruence|]. split; [|split].
    + intros [|j] c Hj.
      * cbn in Hj. injection Hj as <-.
        rewrite Hother by done. rewrite Hfs, lookup_insert_eq.
        unfold slice. cbn [Nat.mul Nat.add drop]. do 2 f_equal; lia.
      * cbn in Hj. rewrite (Hfiles j c Hj), Hrem, slice_drop.
        do 2 f_equal; lia.
    + intros p Hp. cbn [fmap list_fmap] in Hp. apply not_elem_of_cons in Hp as [Hp1 Hp2].
      rewrite Hother by done. by rewrite Hfs, lookup_insert_ne.
    + rewrite Hrem', Hrem, drop_drop. f_equal; cbn [length]; lia.
Qed.

(** X8. [loop] with a directory, at readable clocks with fresh, distinct
    dated paths and a peer that keeps sending: pass [j] leaves in its file
    exactly the bytes of the stream from [j * 15 * length] up to
    [(j + 1) * 15 * length], with no header before them; no other file
    changes, the reader is connected and otherwise as before, and the socket
    holds the rest of the stream. *)
Theorem loop_cuts_blocks (fuel : nat) (L : Z) (clk : list clock) (w : world) :
  0 <= L -> (Z.to_nat (15 * L) <= fuel)%nat ->
  Forall (fun seg => seg <> []) (client w) ->
  NoDup (dated_path <$> clk) ->
  Forall (fun now => clock_ok now /\ fs w !! dated_path now = None) clk ->
  (length clk * Z.to_nat (15 * L) <= length (concat (client w)))%nat ->
  exists w',
    loop fuel L true clk w = (Ok tt, w') /\
    self w' = set_connected true (self w) /\
    (forall j now, clk !! j = Some now ->
       fs w' !! dated_path now =
       Some (slice (j * Z.to_nat (15 * L)) ((j + 1) * Z.to_nat (15 * L))
               (concat (client w)))) /\
    (forall p, p ∉ dated_path <$> clk -> fs w' !! p = fs w !! p) /\
    concat (client w') = drop (length clk * Z.to_nat (15 * L)) (concat (client w)).
Proof.
  intros HL Hfuel Hne Hnd Hclk Hlen.
  destruct (loop_passes_dated fuel L HL Hfuel clk
              (World (set_connected true (self w)) (fs w) (client w)))
    as (w' & Hloop & H); [done..|].
  exists w'. split; [|exact H].
  unfold loop, connect, modify. unfold_M. exact Hloop.
Qed.

(** Two passes of one record each over a stream of two records. *)
Lemma loop_cuts_blocks_witness :
  exists w', loop 15 1 true [clock_a; clock_b] (World (init FILE_LEN) ∅ [enc0 ++ enc1])
             = (Ok tt, w') /\
    fs w' !! dated_path clock_a = Some enc0 /\
    fs w' !! dated_path clock_b = Some enc1.
Proof.
  destruct (loop_cuts_blocks 15 1 [clock_a; clock_b]
              (World (init FILE_LEN) ∅ [enc0 ++ enc1]))
    as (w' & Hloop & _ & Hfiles & _).
  - lia.
  - cbn; lia.
  - repeat constructor; done.
  - apply (bool_decide_unpack _); vm_compute; exact I.
  - repeat (constructor; [split; [unfold clock_ok; cbn; lia|reflexivity]|]);
      constructor.
  - cbn; lia.
  - exists w'. split; [exact Hloop|]. split.
    + exact (Hfiles 0%nat clock_a eq_refl).
    + exact (Hfiles 1%nat clock_b eq_refl).
Defined.

Lemma loop_passes_undated (fuel : nat) (L : Z) (p : string) :
  0 <= L -> (Z.to_nat (15 * L) <= fuel)%nat ->
  forall (clk : list clock) (now : clock) (w : world),
  connected (self w) = true ->
  Forall (fun seg => seg <> []) (client w) ->
  Forall (fun now => clock_ok now /\ local_path now = p) (now :: clk) ->
  (length (now :: clk) * Z.to_nat (15 * L) <= length (concat (client w)))%nat ->
  exists w',
    loop_passes fuel L false (now :: clk) w = (Ok tt, w') /\
    self w' = self w /\
    fs w' = <[p := slice (length clk * Z.to_nat (15 * L))
                     ((length clk + 1) * Z.to_nat (15 * L))
                     (concat (client w))]> (fs w) /\
    concat (client w') =
      drop (length (now :: clk) * Z.to_nat (15 * L)) (concat (client w)).
Proof.
  intros HL Hfuel. set (n := Z.to_nat (15 * L)).
  induction clk as [|now' clk IH]; intros now w Hc Hne Hclk Hlen.
  - apply Forall_cons in Hclk as [[Hok Hp] _]. cbn [length] in Hlen.
    destruct (get_write_block fuel L None now w)
      as (w1 & Hgw & Hself & Hfs & Hrem & Hne1); [done|done|done|done|lia|done|].
    fold n in Hfs, Hrem. rewrite Hp in Hfs.
    exists w1. cbn [loop_passes]. unfold_M. unfold loop_pass. rewrite Hgw.
    split; [done|]. split; [done|]. split.
    + rewrite Hfs. unfold slice. cbn [length Nat.mul Nat.add drop].
      do 2 f_equal; lia.
    + rewrite Hrem. f_equal; cbn [length]; lia.
  - apply Forall_cons in Hclk as [[Hok Hp] Hclk]. cbn [length] in Hlen.
    destruct (get_write_block fuel L None now w)
      as (w1 & Hgw & Hself & Hfs & Hrem & Hne1); [done|done|done|done|lia|done|].
    fold n in Hfs, Hrem. rewrite Hp in Hfs.
    destruct (IH now' w1) as (w' & Hloop & Hself' & Hfs' & Hrem').
    { by rewrite Hself. }
    { done. }
    { done. }
    { rewrite Hrem, length_drop. cbn [length]. lia. }
    exists w'. split.
    { change (loop_passes fuel L false (now :: now' :: clk) w)
        with ((loop_pass fuel L false now ;; loop_passes fuel L false (now' :: clk)) w).
      unfold_M. unfold loop_pass at 1. rewrite Hgw. exact Hloop. }
    split; [congruence|]. split.
    + rewrite Hfs', Hfs, insert_insert_eq, Hrem, slice_drop. cbn [length].
      do 2 f_equal; lia.
    + rewrite Hrem', Hrem, drop_drop. f_equal; cbn [length]; lia.
Qed.

(** X9. [loop] without a directory names the file by the second: of the
    passes that fall within one second, each empties the file of the one
    before, and when they are done the file holds the block of the last
    pass only; the blocks before it are lost. *)
Theorem loop_overwrites_within_a_second (fuel : nat) (L : Z) (p : string)
    (now : clock) (clk : list clock) (w : world) :
  0 <= L -> (Z.to_nat (15 * L) <= fuel)%nat ->
  Forall (fun seg => seg <> []) (client w) ->
  Forall (fun now => clock_ok now /\ local_path now = p) (now :: clk) ->
  (length (now :: clk) * Z.to_nat (15 * L) <= length (concat (client w)))%nat ->
  exists w',
    loop fuel L false (now :: clk) w = (Ok tt, w') /\
    fs w' = <[p := slice (length clk * Z.to_nat (15 * L))
                     ((length clk + 1) * Z.to_nat (15 * L))
                     (concat (client w))]> (fs w) /\
    concat (client w') =
      drop (length (now :: clk) * Z.to_nat (15 * L)) (concat (client w)).
Proof.
  intros HL Hfuel Hne Hclk Hlen.
  destruct (loop_passes_undated fuel L p HL Hfuel clk now
              (World (set_connected true (self w)) (fs w) (client w)))
    as (w' & Hloop & _ & H); [done..|].
  exists w'. split; [|exact H].
  unfold loop, connect, modify. unfold_M. exact Hloop.
Qed.

(** Two passes in one second over a stream of two records: the first
    record is in no file. *)
Lemma loop_overwrites_within_a_second_witness :
  exists w', loop 15 1 false [clock_a; clock_a] (World (init FILE_LEN) ∅ [enc0 ++ enc1])
             = (Ok tt, w') /\
    fs w' = {["el.dat" := enc1]}.
Proof.
  destruct (loop_overwrites_within_a_second 15 1 "el.dat" clock_a [clock_a]
              (World (init FILE_LEN) ∅ [enc0 ++ enc1]))
    as (w' & Hloop & Hfs & _).
  - lia.
  - cbn; lia.
  - repeat constructor; done.
  - repeat (constructor; [split; [unfold clock_ok; cbn; lia|reflexivity]|]);
      constructor.
  - cbn; lia.
  - exists w'. split; [exact Hloop|]. rewrite Hfs. reflexivity.
Defined.

(** ** Rotating capture: the edges *)

Lemma build_header_overflow (now : clock) :
  ~ clock_ok now ->
  build_header HEADER_TXT VERSION (utime_int now) (utime_us now)
  = Raise OverflowError.
Proof.
  intros Hbad. unfold build_header.
  rewrite (to_bytes4_ok VERSION VERSION_fits). cbn [obind].
  unfold to_bytes4.
  destruct (Z.leb_spec 0 (utime_int now)); cbn [andb obind]; [|done].
  destruct (Z.ltb_spec (utime_int now) (2 ^ 32)); cbn [obind]; [|done].
  destruct (Z.leb_spec 0 (utime_us now)); cbn [andb obind]; [|done].
  destruct (Z.ltb_spec (utime_us now) (2 ^ 32)); cbn [obind]; [|done].
  exfalso. apply Hbad. unfold clock_ok. lia.
Qed.

(** X10. When no file is current and the dated path already exists,
    [fill] raises the filename collision and changes nothing: the file that
    is there is not touched, no byte is taken from the socket, and the
    reader is as it was. *)
Theorem fill_collision (now : clock) (w : world) :
  current_path (self w) = None -> is_Some (fs w !! dated_path now) ->
  fill now w = (Raise FilenameCollision, w).
Proof.
  intros Hidle [c Hc]. destruct w as [r files segs]. cbn [self fs] in *.
  unfold fill. unfold_M. rewrite fill_initialization_eq, Hidle. cbv zeta.
  by rewrite Hc.
Qed.

(** The dated path of [clock_a] holds a file already. *)
Lemma fill_collision_witness :
  fill clock_a (start 1 {[dated_path clock_a := enc1]} [enc0])
  = (Raise FilenameCollision, start 1 {[dated_path clock_a := enc1]} [enc0]).
Proof.
  apply (fill_collision clock_a (start 1 {[dated_path clock_a := enc1]} [enc0]));
    [reflexivity|]. exists enc1. reflexivity.
Defined.

(** X11. When no file is current, the dated path is free and the clock does
    not fit the header fields, [fill] raises the overflow error after it has
    set the current path and created the file: the file is left empty and
    current, the counter [res] is not reset, and nothing is taken from the
    socket.  A call that follows goes on with that file: it writes no header
    and puts the bytes it receives at the very start of the file. *)
Theorem fill_header_failure (now next : clock) (w : world) :
  current_path (self w) = None -> fs w !! dated_path now = None ->
  ~ clock_ok now -> 0 <= res (self w) ->
  let p := dated_path now in
  let w1 := World (set_current_path (Some p) (self w)) (<[p := []]> (fs w))
                  (client w) in
  let data := fst (take_seg (Z.to_nat (recv_num (res (self w)))) (client w)) in
  fill now w = (Raise OverflowError, w1) /\
  exists w2, fill next w1 = (Ok tt, w2) /\ fs w2 = <[p := data]> (fs w).
Proof.
  intros Hidle Hfree Hbad Hres p w1 data.
  destruct w as [r files segs]. cbn [self fs client] in *. split.
  - unfold fill. unfold_M. rewrite fill_initialization_eq, Hidle. cbv zeta.
    by rewrite Hfree, (build_header_overflow now Hbad).
  - destruct (fill_after_initialization next w1 (set_current_path (Some p) r)
                (<[p := []]> files) p) as (r' & Hfill & _).
    { subst w1. by rewrite fill_initialization_eq. }
    { done. }
    { done. }
    eexists. split; [exact Hfill|]. cbn [fs]. subst w1. cbn [client res set_current_path].
    by rewrite lookup_insert_eq, insert_insert_eq.
Qed.

(** A clock set before 1970, then a good one. *)
Lemma fill_header_failure_witness :
  let bad := Clock "a.dat" "el.dat" (-1) 0 in
  fst (fill bad (start 1 ∅ [enc0])) = Raise OverflowError /\
  fs (snd (fill clock_a (snd (fill bad (start 1 ∅ [enc0]))))) = {["a.dat" := enc0]}.
Proof.
  intros bad.
  destruct (fill_header_failure bad clock_a (start 1 ∅ [enc0]))
    as (Hfail & w2 & Hnext & Hfs);
    [reflexivity|reflexivity|unfold clock_ok; cbn; lia|cbn; lia|].
  rewrite Hfail. cbn [fst snd]. split; [reflexivity|].
  rewrite Hnext. cbn [snd]. rewrite Hfs. reflexivity.
Defined.

(** X13. A reader of [file_len = 0]: every call of [fill] without a current
    file makes a file of the header alone, takes no byte of the stream and
    ends without a current file, so the next call does the same.  A reader
    of negative [file_len] makes the file and its header and then raises on
    the negative size it asks [recv] for. *)
Theorem fill_without_capacity (now : clock) (w : world) :
  current_path (self w) = None -> fs w !! dated_path now = None -> clock_ok now ->
  (file_len (self w) = 0 ->
   exists w', fill now w = (Ok tt, w') /\
     fs w' = <[dated_path now := header_of now]> (fs w) /\
     concat (client w') = concat (client w) /\
     current_path (self w') = None) /\
  (file_len (self w) < 0 ->
   exists w', fill now w = (Raise ValueError, w') /\
     fs w' = <[dated_path now := header_of now]> (fs w) /\
     client w' = client w /\
     current_path (self w') = Some (dated_path now)).
Proof.
  intros Hidle Hfree Hok. destruct w as [r files segs]. cbn [self fs client] in *.
  pose proof (fill_initialization_eq now r files segs) as Hinit.
  rewrite Hidle in Hinit. cbv zeta in Hinit.
  rewrite Hfree, (build_header_now now Hok) in Hinit. split.
  - intros HF.
    destruct (fill_after_initialization now _ _ _ (dated_path now) Hinit)
      as (r' & Hfill & _ & _ & Hres' & Hcur'); [done|cbn; lia|].
    cbn [client res set_res] in *. rewrite HF in *.
    change (recv_num (0 * 15)) with 0 in *. change (Z.to_nat 0) with 0%nat in *.
    destruct (take_seg 0 segs) as [data segs'] eqn:Hts. cbn [fst snd] in *.
    pose proof (take_seg_length _ _ _ _ Hts) as Hd.
    assert (data = []) as -> by (destruct data; [done|cbn in Hd; lia]).
    eexists. split; [exact Hfill|]. cbn [fs client self].
    rewrite lookup_insert_eq, insert_insert_eq. cbn [from_option id].
    rewrite app_nil_r. split; [done|]. split.
    + by rewrite <- (take_seg_concat _ _ _ _ Hts).
    + rewrite Hcur'. reflexivity.
  - intros HF. eexists. split.
    + unfold fill. unfold_M. rewrite Hinit, fill_body_eq.
      cbn [res set_res].
      destruct (Z.ltb_spec (recv_num (file_len r * 15)) 0) as [_|Hge];
        [reflexivity|].
      rewrite recv_num_min in Hge. lia.
    + cbn [fs client self current_path set_res set_current_path]. done.
Qed.

(** A reader of no record per file on a stream of one record. *)
Lemma fill_without_capacity_witness :
  exists w', fill clock_a (start 0 ∅ [enc0]) = (Ok tt, w') /\
    fs w' = {[dated_path clock_a := header_of clock_a]} /\
    concat (client w') = enc0.
Proof.
  destruct (fill_without_capacity clock_a (start 0 ∅ [enc0]))
    as [Hzero _]; [reflexivity|reflexivity|unfold clock_ok; cbn; lia|].
  destruct (Hzero eq_refl) as (w' & Hfill & Hfs & Hcat & _).
  exists w'. split; [exact Hfill|]. split; [exact Hfs|exact Hcat].
Defined.

(** ** Rotating capture: the files that were there *)

Lemma fill_tail_frame (r0 : reader) (files1 : gmap string bytes)
    (segs : list bytes) (p q : string) :
  current_path r0 = Some p -> q <> p ->
  let ow := (data ← fill_body; fill_analyzer data) (World r0 files1 segs) in
  fs (snd ow) !! q = files1 !! q /\
  (current_path (self (snd ow)) = None \/ current_path (self (snd ow)) = Some p).
Proof.
  intros Hp Hq. cbv zeta. unfold_M. rewrite fill_body_eq.
  destruct (recv_num (res r0) <? 0); [cbn [snd fs self]; by auto|].
  cbv zeta. rewrite Hp.
  match goal with
  | |- context [fill_analyzer ?d (World ?r ?f ?s)] =>
      destruct (fill_analyzer_ok d r f s) as (r' & Ha & _ & Hcp & _)
  end.
  rewrite Ha. cbn [snd fs self]. rewrite lookup_insert_ne by done.
  split; [done|]. rewrite Hcp. cbn [res set_res].
  destruct (_ <=? 0); cbn [current_path set_current_path set_res]; auto.
Qed.

(** The files [fill] can touch are the current one and, when there is
    none, the dated one. *)
Lemma fill_frame (now : clock) (w : world) (q : string) :
  current_path (self w) <> Some q ->
  (current_path (self w) = None -> fs w !! dated_path now = None ->
   q <> dated_path now) ->
  fs (snd (fill now w)) !! q = fs w !! q /\
  (current_path (self (snd (fill now w))) = Some q -> False).
Proof.
  intros Hcur Hdated. destruct w as [r files segs]. cbn [self fs] in *.
  unfold fill.
  change ((fill_initialization now ;; data ← fill_body; fill_analyzer data)
            (World r files segs))
    with (match fill_initialization now (World r files segs) with
          | (Ok _, w') => (data ← fill_body; fill_analyzer data) w'
          | (Raise e, w') => (Raise e, w')
          | (OutOfFuel, w') => (OutOfFuel, w')
          end).
  rewrite fill_initialization_eq.
  destruct (current_path r) as [p|] eqn:Hp.
  - assert (q <> p) as Hq by congruence.
    destruct (fill_tail_frame r files segs p q Hp Hq) as [Hfs Hc].
    split; [exact Hfs|]. intros Hq'. destruct Hc as [Hc|Hc]; congruence.
  - cbv zeta. destruct (files !! dated_path now) eqn:Hfree.
    { cbn [snd fs self]. split; [done|]. congruence. }
    specialize (Hdated eq_refl eq_refl).
    destruct (build_header _ _ _ _) as [h|e|].
    + destruct (fill_tail_frame
                  (set_res (file_len r * 15) (set_current_path (Some (dated_path now)) r))
                  (<[dated_path now := h]> files) segs (dated_path now) q eq_refl Hdated)
        as [Hfs Hc].
      rewrite lookup_insert_ne in Hfs by done.
      split; [exact Hfs|]. intros Hq'. destruct Hc as [Hc|Hc]; congruence.
    + cbn [snd fs self current_path set_current_path].
      rewrite lookup_insert_ne by done. split; [done|]. congruence.
    + cbn [snd fs self current_path set_current_path].
      rewrite lookup_insert_ne by done. split; [done|]. congruence.
Qed.

Lemma fills_frame (clk : list clock) :
  forall (w : world) (q : string),
  is_Some (fs w !! q) -> current_path (self w) <> Some q ->
  fs (snd (fills clk w)) !! q = fs w !! q.
Proof.
  induction clk as [|now clk IH]; intros w q Hq Hcur; [done|].
  destruct (fill_frame now w q Hcur) as [Hfs Hcur'].
  { intros _ Hfree. destruct Hq as [c Hc]. congruence. }
  cbn [fills]. unfold_M.
  destruct (fill now w) as [[[]|e|] w1]; cbn [snd] in *; [|done..].
  rewrite <- Hfs. apply IH; [by rewrite Hfs|]. intros Hq'. by apply Hcur'.
Qed.

(** X12. A rotating capture never changes a file that was there when it
    started: whatever the stream, the clocks and the number of calls, and
    whether the calls succeed or raise, every such file holds what it held. *)
Theorem fills_keep_existing_files (F : Z) (files : gmap string bytes)
    (segs : list bytes) (clk : list clock) (p : string) (content : bytes) :
  files !! p = Some content ->
  fs (snd (fills clk (start F files segs))) !! p = Some content.
Proof.
  intros Hp. rewrite fills_frame; [done| |done].
  cbn [fs start]. by rewrite Hp.
Qed.

(** A file under the dated name of the first clock: the capture stops at
    the collision and the file is as it was. *)
Lemma fills_keep_existing_files_witness :
  fs (snd (fills [clock_b; clock_a]
             (start 1 {[dated_path clock_a := enc1]} [enc0; enc0])))
    !! dated_path clock_a = Some enc1.
Proof.
  apply (fills_keep_existing_files 1 {[dated_path clock_a := enc1]} [enc0; enc0]
           [clock_b; clock_a] (dated_path clock_a) enc1).
  reflexivity.
Defined.

(** ** The lock file *)

(** X14. While the lock file exists no second reader can be made on it:
    [__init__] raises, writes nothing, and the object it leaves behind does
    not hold the lock, so that its [__del__] leaves the lock file of the
    first reader in place.  A reader refused for the lack of write access
    leaves no trace either. *)
Theorem lock_excludes (lockpath : string) (writable : bool) (pid : bytes)
    (file_len : Z) (files : gmap string bytes) :
  (is_Some (files !! lockpath) ->
   exists g, __init__ lockpath writable pid file_len files = (Some Locked, g, files) /\
     _locked g = false /\ __del__ g files = (None, files)) /\
  (files !! lockpath = None -> writable = false ->
   exists g, __init__ lockpath writable pid file_len files
             = (Some NoWriteAccess, g, files) /\
     _locked g = false /\ __del__ g files = (None, files)).
Proof.
  split.
  - intros [c Hc]. unfold __init__. rewrite Hc. eexists. split; [reflexivity|].
    split; reflexivity.
  - intros Hfree ->. unfold __init__. rewrite Hfree. cbn [negb].
    eexists. split; [reflexivity|]. split; reflexivity.
Qed.

(** X15. On a free lock path in a writable directory [__init__] succeeds
    and writes the process id and a newline to the lock file; until the
    object is deleted every other [__init__] on that path is refused;
    [__del__] then removes the lock file, which leaves the files exactly as
    they were before, so that a reader can be made again. *)
Theorem lock_round_trip (lockpath : string) (pid pid' : bytes)
    (file_len file_len' : Z) (writable' : bool) (files : gmap string bytes) :
  files !! lockpath = None ->
  exists g,
    __init__ lockpath true pid file_len files
      = (None, g, <[lockpath := pid ++ [nl]]> files) /\
    _locked g = true /\
    fst (fst (__init__ lockpath writable' pid' file_len'
                (<[lockpath := pid ++ [nl]]> files))) = Some Locked /\
    __del__ g (<[lockpath := pid ++ [nl]]> files) = (None, files) /\
    fst (fst (__init__ lockpath true pid' file_len' files)) = None.
Proof.
  intros Hfree. unfold __init__ at 1. rewrite Hfree. cbn [negb].
  eexists. split; [reflexivity|]. split; [reflexivity|]. split; [|split].
  - unfold __init__. by rewrite lookup_insert_eq.
  - unfold __del__. cbn [_locked _lockpath]. rewrite lookup_insert_eq.
    by rewrite delete_insert_id.
  - unfold __init__. by rewrite Hfree.
Qed.

(** Process 4242 takes the lock and gives it back. *)
Lemma lock_round_trip_witness :
  exists g, __init__ "el_enc.lock" true (txt "4242") FILE_LEN ∅
            = (None, g, {["el_enc.lock" := txt "4242" ++ [nl]]}) /\
    __del__ g {["el_enc.lock" := txt "4242" ++ [nl]]} = (None, ∅).
Proof.
  destruct (lock_round_trip "el_enc.lock" (txt "4242") (txt "4243") FILE_LEN
              FILE_LEN true ∅) as (g & Hinit & _ & _ & Hdel & _);
    [reflexivity|].
  exists g. rewrite insert_empty in Hinit, Hdel. split; [exact Hinit|exact Hdel].
Defined.

(** A second reader on the lock of process 4242. *)
Lemma lock_excludes_witness :
  exists g, __init__ "el_enc.lock" true (txt "4243") FILE_LEN
              {["el_enc.lock" := txt "4242" ++ [nl]]}
            = (Some Locked, g, {["el_enc.lock" := txt "4242" ++ [nl]]}) /\
    __del__ g {["el_enc.lock" := txt "4242" ++ [nl]]}
    = (None, {["el_enc.lock" := txt "4242" ++ [nl]]}).
Proof.
  destruct (lock_excludes "el_enc.lock" true (txt "4243") FILE_LEN
              {["el_enc.lock" := txt "4242" ++ [nl]]}) as [Hlocked _].
  destruct Hlocked as (g & Hinit & _ & Hdel); [by eexists|].
  exists g. split; [exact Hinit|exact Hdel].
Defined.

(** ** Rotating capture of whole packets: the latest state *)

Lemma decode_same_latest (packet : bytes) (r1 r2 : reader) :
  length packet = 15%nat -> same_latest r1 r2 ->
  exists r1' r2', decode packet r1 = Ok r1' /\ decode packet r2 = Ok r2' /\
    same_latest r1' r2' /\
    (same_latest r1 r1' \/ forall r3, exists r3', decode packet r3 = Ok r3' /\
                                        same_latest r1' r3').
Proof.
  intros Hlen Hs. rewrite !decode_eq by done.
  destruct (Byte.eqb (default x00 (packet !! 0%nat)) x99
            && Byte.eqb (default x00 (packet !! 14%nat)) x66) eqn:E;
    do 2 eexists; (split; [reflexivity|]); (split; [reflexivity|]).
  - split; [by split|]. right. intros r3. rewrite decode_eq, E by done.
    eexists. split; [reflexivity|]. by split.
  - split; [done|]. left. by split.
Qed.

Lemma decode_all_same_latest (ps : list bytes) :
  Forall (fun packet => length packet = 15%nat) ps ->
  forall r1 r2, same_latest r1 r2 ->
  exists r1' r2', decode_all ps r1 = Ok r1' /\ decode_all ps r2 = Ok r2' /\
    same_latest r1' r2'.
Proof.
  induction 1 as [|p ps Hp _ IH]; intros r1 r2 Hs.
  - exists r1, r2. split; [done|]. split; [done|]. exact Hs.
  - destruct (decode_same_latest p r1 r2 Hp Hs) as (a & b & Ha & Hb & Hab & _).
    destruct (IH a b Hab) as (a' & b' & Ha' & Hb' & Hab').
    exists a', b'. cbn [decode_all]. rewrite Ha, Hb. split; [done|]. split; [done|].
    exact Hab'.
Qed.

(** Decoding the same packets once more changes nothing of the latest
    state. *)
Lemma decode_all_again (ps : list bytes) :
  Forall (fun packet => length packet = 15%nat) ps ->
  forall r r', decode_all ps r = Ok r' ->
  exists r'', decode_all ps r' = Ok r'' /\ same_latest r' r''.
Proof.
  induction ps as [|p ps IH] using rev_ind; intros Hall r r' Hd.
  - exists r'. by repeat split.
  - apply Forall_app in Hall as [Hps Hp]. rewrite Forall_singleton in Hp.
    rewrite decode_all_app in Hd.
    destruct (decode_all ps r) as [a| |] eqn:Ha; cbn [obind decode_all] in Hd;
      [|done..].
    destruct (decode p a) as [a'| |] eqn:Hpa; cbn [obind] in Hd; [|done..].
    injection Hd as <-.
    destruct (decode_all_ok ps a' Hps) as (b & Hb & _).
    rewrite decode_all_app, Hb. cbn [obind decode_all].
    destruct (decode_same_latest p a a Hp) as (x & _ & Hx & _ & _ & Hcase);
      [by split|].
    rewrite Hpa in Hx. injection Hx as <-.
    destruct Hcase as [Hkeep|Hset].
    + destruct (IH Hps r a Ha) as (a2 & Ha2 & Hs2).
      destruct (decode_all_same_latest ps Hps a a') as (y & z & Hy & Hz & Hyz);
        [destruct Hkeep; by split|].
      rewrite Ha2 in Hy. injection Hy as <-. rewrite Hb in Hz. injection Hz as <-.
      destruct (decode_same_latest p a b Hp) as (u & v & Hu & Hv & Huv & _).
      { destruct Hs2, Hyz. split; congruence. }
      rewrite Hpa in Hu. injection Hu as <-. rewrite Hv. cbn [obind].
      exists v. by split.
    + destruct (Hset b) as (b' & Hb' & Hs'). rewrite Hb'. cbn [obind].
      exists b'. by split.
Qed.

Lemma analyzer_tracking (F : Z) (data : bytes) (r : reader) :
  (length (carry_over r) mod 15 = 0)%nat -> (length data mod 15 = 0)%nat ->
  (exists r0, decode_all (packets (carry_over r)) (init F) = Ok r0 /\
              same_latest r0 r) ->
  exists r', analyzer data r = Ok r' /\ same_session r r' /\
    carry_over r' = carry_over r ++ data /\
    exists r0', decode_all (packets (carry_over r ++ data)) (init F) = Ok r0' /\
                same_latest r0' r'.
Proof.
  intros Hc Hd (r0 & Hr0 & Hs0).
  destruct (analyzer_aligned data r Hc Hd) as (r' & Ha & Hs & Hco).
  exists r'. split; [done|]. split; [done|]. split; [done|].
  revert Ha. unfold analyzer, absorb.
  rewrite packets_app_aligned, !decode_all_app by done.
  rewrite Hr0. cbn [obind].
  set (rc := set_carry_over _ r).
  destruct (decode_all_again (packets (carry_over r)) (packets_size _) _ _ Hr0)
    as (r1 & Hr1 & Hs1).
  destruct (decode_all_same_latest (packets (carry_over r)) (packets_size _) r0 rc)
    as (a & b & Ha & Hb & Hab); [destruct Hs0; by split|].
  rewrite Hr1 in Ha. injection Ha as <-. rewrite Hb. cbn [obind].
  destruct (decode_all_same_latest (packets data) (packets_size _) r0 b)
    as (x & y & Hx & Hy & Hxy).
  { destruct Hs1, Hab. split; congruence. }
  rewrite Hy. intros [= <-]. by exists x.
Qed.

Lemma fill_analyzer_eq (data : bytes) (r : reader)
    (files : gmap string bytes) (segs : list bytes) :
  fill_analyzer data (World r files segs) =
  match analyzer data r with
  | Ok r' => (Ok tt, World r' files segs)
  | Raise e => (Raise e, World r files segs)
  | OutOfFuel => (OutOfFuel, World r files segs)
  end.
Proof.
  unfold fill_analyzer, get_self, lift. unfold_M. cbn [self].
  by destruct (analyzer data r).
Qed.

Lemma take_seg_aligned (n : nat) (segs segs' : list bytes) (data : bytes) :
  Forall (fun seg => length seg mod 15 = 0)%nat segs -> (n mod 15 = 0)%nat ->
  take_seg n segs = (data, segs') ->
  (length data mod 15 = 0)%nat /\
  Forall (fun seg => length seg mod 15 = 0)%nat segs'.
Proof.
  unfold take_seg. intros Hall Hn.
  destruct Hall as [|seg segs0 Hseg Hall]; [by intros [= <- <-]|].
  destruct (Nat.leb_spec (length seg) n); intros [= <- <-]; [done|].
  split.
  - rewrite length_take. by replace (n `min` length seg)%nat with n by lia.
  - constructor; [|done]. rewrite length_drop.
    pose proof (Nat.div_mod_eq (length seg) 15).
    pose proof (Nat.div_mod_eq n 15).
    replace (length seg - n)%nat
      with ((length seg / 15 - n / 15) * 15)%nat by lia.
    apply Nat.Div0.mod_mul.
Qed.

Lemma tracking_tail (F : Z) (stream : bytes) (r0 : reader)
    (files1 : gmap string bytes) (segs : list bytes) (p : string) :
  tracking F stream (World r0 files1 segs) -> current_path r0 = Some p ->
  tracking F stream
    (snd ((data ← fill_body; fill_analyzer data) (World r0 files1 segs))).
Proof.
  intros Htr Hp. pose proof Htr as (Hcat & Hall & Hc & Hfl & Hres & Hlatest).
  cbn [self client] in *. unfold_M. rewrite fill_body_eq.
  destruct (Z.ltb_spec (recv_num (res r0)) 0) as [_|Hge]; [exact Htr|].
  cbv zeta. rewrite Hp.
  destruct (take_seg (Z.to_nat (recv_num (res r0))) segs) as [data segs'] eqn:Hts.
  cbn [fst snd].
  assert (Z.to_nat (recv_num (res r0)) mod 15 = 0)%nat as Hn.
  { rewrite recv_num_min in *. unfold RECV_BUFLEN in *.
    pose proof (Z.div_mod (res r0) 15 ltac:(lia)) as Hdm. rewrite Hres in Hdm.
    destruct (Z.min_spec (res r0) (128 * 15)) as [[_ ->]|[_ ->]].
    - replace (Z.to_nat (res r0)) with (Z.to_nat (res r0 / 15) * 15)%nat by lia.
      apply Nat.Div0.mod_mul.
    - reflexivity. }
  destruct (take_seg_aligned _ _ _ _ Hall Hn Hts) as [Hd Hall'].
  pose proof (take_seg_concat _ _ _ _ Hts) as Hcat'.
  set (r2 := if _ <=? 0 then _ else _).
  assert (carry_over r2 = carry_over r0 /\ ts_latest r2 = ts_latest r0 /\
          state_latest r2 = state_latest r0 /\ file_len r2 = file_len r0 /\
          res r2 = res r0 - Z.of_nat (length data)) as (Hc2 & Ht2 & Hs2 & Hf2 & Hr2)
    by (subst r2; destruct (_ <=? 0); by repeat split).
  destruct (analyzer_tracking F data r2) as (r' & Ha & (_&_&Hfl'&Hres') & Hco & Hl').
  { by rewrite Hc2. }
  { done. }
  { rewrite Hc2. destruct Hlatest as (x & Hx & Hx1 & Hx2). exists x.
    split; [done|]. split; congruence. }
  rewrite fill_analyzer_eq, Ha. cbn [snd].
  repeat split; cbn [self client].
  - rewrite Hco, Hc2, <- app_assoc, Hcat'. exact Hcat.
  - done.
  - rewrite Hco, Hc2, length_app, Nat.Div0.add_mod, Hc, Hd by done. done.
  - congruence.
  - rewrite Hres', Hr2.
    pose proof (Nat.div_mod_eq (length data) 15) as Hdd. rewrite Hd in Hdd.
    replace (res r0 - Z.of_nat (length data))
      with (res r0 + (- Z.of_nat (length data / 15)) * 15) by lia.
    by rewrite Z.mod_add by lia.
  - rewrite Hco. exact Hl'.
Qed.

Lemma tracking_fill (F : Z) (stream : bytes) (now : clock) (w : world) :
  tracking F stream w -> tracking F stream (snd (fill now w)).
Proof.
  intros Htr. destruct w as [r files segs].
  unfold fill.
  change ((fill_initialization now ;; data ← fill_body; fill_analyzer data)
            (World r files segs))
    with (match fill_initialization now (World r files segs) with
          | (Ok _, w') => (data ← fill_body; fill_analyzer data) w'
          | (Raise e, w') => (Raise e, w')
          | (OutOfFuel, w') => (OutOfFuel, w')
          end).
  rewrite fill_initialization_eq.
  destruct (current_path r) as [p|] eqn:Hp; [by eapply tracking_tail|].
  cbv zeta. destruct (files !! dated_path now); [exact Htr|].
  destruct Htr as (Hcat & Hall & Hc & Hfl & Hres & Hlatest). cbn [self client] in *.
  destruct (build_header _ _ _ _) as [h|e|].
  - eapply tracking_tail; [|reflexivity].
    repeat split; cbn [self client carry_over set_res set_current_path file_len res];
      try done.
    rewrite Hfl. apply Z.mod_mul. lia.
  - cbn [snd]. by repeat split.
  - cbn [snd]. by repeat split.
Qed.

Lemma tracking_fills (F : Z) (stream : bytes) (clk : list clock) :
  forall w, tracking F stream w -> tracking F stream (snd (fills clk w)).
Proof.
  induction clk as [|now clk IH]; intros w Htr; [done|].
  pose proof (tracking_fill F stream now w Htr) as Htr1.
  cbn [fills]. unfold_M.
  destruct (fill now w) as [[[]|e|] w1]; cbn [snd] in *; [by apply IH|done..].
Qed.

Lemma tracking_start (F : Z) (files : gmap string bytes) (segs : list bytes) :
  Forall (fun seg => length seg mod 15 = 0)%nat segs ->
  tracking F (concat segs) (start F files segs).
Proof.
  intros Hall. unfold start, init. repeat split; cbn; try done.
  - apply Z.mod_mul. lia.
  - eexists. split; [reflexivity|]. by split.
Qed.

(** X16. When the peer's stream arrives in segments of whole packets, the
    rotating capture does follow the stream in spite of what it keeps in the
    carry-over: after any number of calls of [fill], whether they succeed or
    raise, the carry-over is everything received so far and no byte of the
    stream is lost; the latest timestamp and state are those that decoding
    the received bytes packet by packet from the start gives; so when the
    received bytes end with a packet of header 0x99 and footer 0x66, they are
    the timestamp and the state of that packet. *)
Theorem capture_tracks_latest (F : Z) (files : gmap string bytes)
    (segs : list bytes) (clk : list clock) :
  Forall (fun seg => length seg mod 15 = 0)%nat segs ->
  let w := snd (fills clk (start F files segs)) in
  carry_over (self w) ++ concat (client w) = concat segs /\
  (exists r, decode_all (packets (carry_over (self w))) (init F) = Ok r /\
     ts_latest (self w) = ts_latest r /\ state_latest (self w) = state_latest r) /\
  (forall X P, carry_over (self w) = X ++ P -> length P = 15%nat ->
     P !! 0%nat = Some x99 -> P !! 14%nat = Some x66 ->
     ts_latest (self w) = from_bytes_le (slice 1 9 P) /\
     state_latest (self w) = from_bytes_le (slice 9 13 P)).
Proof.
  intros Hall w.
  destruct (tracking_fills F (concat segs) clk _ (tracking_start F files segs Hall))
    as (Hcat & _ & Hc & _ & _ & (r & Hr & Hts & Hst)).
  fold w in Hcat, Hc, Hr, Hts, Hst.
  split; [exact Hcat|]. split; [by exists r|].
  intros X P HXP HP Hh Hf. rewrite Hts, Hst. rewrite HXP in Hr, Hc.
  assert (length X mod 15 = 0)%nat as HX.
  { rewrite length_app, HP in Hc.
    pose proof (Nat.div_mod_eq (length X + 15) 15).
    pose proof (Nat.div_mod_eq (length X) 15).
    pose proof (Nat.mod_upper_bound (length X) 15). lia. }
  rewrite (packets_app_aligned X P HX), (packets_one P HP), decode_all_app in Hr.
  destruct (decode_all (packets X) (init F)) as [a| |]; cbn [obind decode_all] in Hr;
    [|done..].
  rewrite decode_eq, Hh, Hf in Hr by done. cbn [from_option id Byte.eqb andb obind] in Hr.
  injection Hr as <-. by split.
Qed.

(** Two records in one segment, one record per file, two calls. *)
Lemma capture_tracks_latest_witness :
  Forall (fun seg : bytes => length seg mod 15 = 0)%nat [enc0 ++ enc1] /\
  ts_latest (self (snd (fills [clock_a; clock_b] (start 1 ∅ [enc0 ++ enc1])))) = 1.
Proof.
  assert (Forall (fun seg : bytes => length seg mod 15 = 0)%nat [enc0 ++ enc1])
    as Hall by (repeat constructor).
  split; [exact Hall|].
  destruct (capture_tracks_latest 1 ∅ [enc0 ++ enc1] [clock_a; clock_b] Hall)
    as (_ & _ & Hlast).
  destruct (Hlast enc0 enc1) as [Hts _]; [vm_compute; reflexivity|reflexivity..|].
  rewrite Hts. reflexivity.
Defined.
